(** * The fake schema registry of pkg/processor/schemaregistry

    A shallow embedding of [fakeRegistry] (the in-memory store) and of
    [fakeServer] (its HTTP front), followed by the properties of the
    registry specification.

    Conventions.
    - Go's [int] is a 64-bit two's complement integer: it is a [Z] and
      every addition the code performs is followed by [GoInt.wrap].
    - A Go slice is either [nil] or a non-nil sequence; the two differ only
      for [encoding/json], and the model keeps the difference.
    - A method with a pointer receiver takes the receiver's state and
      returns the new state next to its results.
    - [fr.m] (the mutex) orders the calls; a call is one atomic function
      of the state here. *)

From Stdlib Require Import ZArith NArith Ascii String Lia.
From stdpp Require Import base tactics option list gmap strings.

Open Scope string_scope.
Open Scope Z_scope.

(** ** Go's [int] *)

Module GoInt.

Definition maxInt : Z := 2 ^ 63 - 1.
Definition minInt : Z := - 2 ^ 63.

(** The value an [int] holds after an arithmetic result [z]. *)
Definition wrap (z : Z) : Z := (z + 2 ^ 63) mod 2 ^ 64 - 2 ^ 63.

Definition add (x y : Z) : Z := wrap (x + y).

Definition inRange (z : Z) : bool := (minInt <=? z) && (z <=? maxInt).

End GoInt.

(** ** Go slices *)

Module Slice.

Inductive slice (A : Type) : Type :=
| Nil                      (* the nil slice, [var s []T] *)
| Mk (l : list A).         (* a non-nil slice *)
Arguments Nil {A}.
Arguments Mk {A} l.

Definition elems {A} (s : slice A) : list A :=
  match s with
  | Nil => []
  | Mk l => l
  end.

(** [make([]T, 0)] *)
Definition make0 {A} : slice A := Mk [].

(** [append(s, x)]: the result is never nil. *)
Definition append {A} (s : slice A) (x : A) : slice A := Mk (elems s ++ [x]).

(** [len(s)] *)
Definition len {A} (s : slice A) : Z := Z.of_nat (length (elems s)).

End Slice.

Import Slice.

(** ** The client library's records (package [sr])

    [sr.Schema] is the schema text with its type tag; [sr.SubjectSchema]
    embeds a [Schema] next to the subject, the version and the id. *)

Record Schema := mkSchema {
  Schema_Schema : string;   (* field [Schema]: the schema text *)
  Schema_Type : Z           (* field [Type]: the type tag *)
}.

Record SubjectSchema := mkSubjectSchema {
  Subject : string;
  Version : Z;
  ID : Z;
  SubjectSchema_Schema : Schema   (* the embedded [Schema] *)
}.

(** Zero values, [sr.Schema{}] and [sr.SubjectSchema{}]. *)
Definition Schema_zero : Schema := mkSchema EmptyString 0.
Definition SubjectSchema_zero : SubjectSchema :=
  mkSubjectSchema EmptyString 0 0 Schema_zero.

#[global] Instance Schema_eq_dec : EqDecision Schema.
Proof. solve_decision. Defined.
#[global] Instance SubjectSchema_eq_dec : EqDecision SubjectSchema.
Proof. solve_decision. Defined.

(** ** Error codes *)

Definition errorCodeSubjectNotFound : Z := 40401.
Definition errorCodeSchemaNotFound : Z := 40403.

(** ** fakeRegistry *)

Record fakeRegistry := mkFakeRegistry {
  schemas : slice SubjectSchema;
  fingerprintIDCache : gmap N Z;   (* map[uint64]int; a nil map reads as the empty one *)
  idSequence : Z;
  initOnce : bool                  (* whether [initOnce.Do] has run its function *)
}.

(** The zero value, as [newFakeServer] leaves [fs.fr]. *)
Definition fakeRegistry_zero : fakeRegistry :=
  mkFakeRegistry Nil ∅ 0 false.

(** [m[k]] with the comma-ok form: the zero value and [false] when absent. *)
Definition mapGet (m : gmap N Z) (k : N) : Z * bool :=
  match m !! k with
  | Some v => (v, true)
  | None => (0, false)
  end.

(** [fr.init()]: [sync.Once] runs the function on the first call only. *)
Definition init (fr : fakeRegistry) : fakeRegistry :=
  if initOnce fr then fr
  else mkFakeRegistry make0 ∅ (idSequence fr) true.

(** [for _, ss := range l] appending the records of [subject]. *)
Fixpoint findBySubject_loop (subject : string) (l : list SubjectSchema)
    (sss : slice SubjectSchema) : slice SubjectSchema :=
  match l with
  | [] => sss
  | ss :: l' =>
      findBySubject_loop subject l'
        (if String.eqb (Subject ss) subject then append sss ss else sss)
  end.

Definition findBySubject (fr : fakeRegistry) (subject : string) : slice SubjectSchema :=
  findBySubject_loop subject (elems (schemas fr)) Nil.

Fixpoint findOneByID_loop (id : Z) (l : list SubjectSchema) : Schema * bool :=
  match l with
  | [] => (Schema_zero, false)
  | ss :: l' =>
      if ID ss =? id then (SubjectSchema_Schema ss, true)
      else findOneByID_loop id l'
  end.

Definition findOneByID (fr : fakeRegistry) (id : Z) : Schema * bool :=
  findOneByID_loop id (elems (schemas fr)).

Fixpoint findAllByID_loop (id : Z) (l : list SubjectSchema)
    (sss : slice SubjectSchema) : slice SubjectSchema :=
  match l with
  | [] => sss
  | ss :: l' =>
      findAllByID_loop id l' (if ID ss =? id then append sss ss else sss)
  end.

Definition findAllByID (fr : fakeRegistry) (id : Z) : slice SubjectSchema :=
  findAllByID_loop id (elems (schemas fr)) Nil.

Fixpoint findBySubjectID_loop (subject : string) (id : Z)
    (l : list SubjectSchema) : SubjectSchema * bool :=
  match l with
  | [] => (SubjectSchema_zero, false)
  | ss :: l' =>
      if String.eqb (Subject ss) subject && (ID ss =? id) then (ss, true)
      else findBySubjectID_loop subject id l'
  end.

Definition findBySubjectID (fr : fakeRegistry) (subject : string) (id : Z)
    : SubjectSchema * bool :=
  findBySubjectID_loop subject id (elems (schemas fr)).

Fixpoint findBySubjectVersion_loop (subject : string) (version : Z)
    (l : list SubjectSchema) : SubjectSchema * bool :=
  match l with
  | [] => (SubjectSchema_zero, false)
  | ss :: l' =>
      if String.eqb (Subject ss) subject && (Version ss =? version) then (ss, true)
      else findBySubjectVersion_loop subject version l'
  end.

Definition findBySubjectVersion (fr : fakeRegistry) (subject : string) (version : Z)
    : SubjectSchema * bool :=
  findBySubjectVersion_loop subject version (elems (schemas fr)).

(** [fr.idSequence++; return fr.idSequence] *)
Definition nextID (fr : fakeRegistry) : fakeRegistry * Z :=
  let n := GoInt.add (idSequence fr) 1 in
  (mkFakeRegistry (schemas fr) (fingerprintIDCache fr) n (initOnce fr), n).

Definition nextVersion (fr : fakeRegistry) (subject : string) : Z :=
  GoInt.add (len (findBySubject fr subject)) 1.

Section Registry.

(** [internal.Rabin], the 64-bit fingerprint of the schema text: a pure
    function of the bytes, kept abstract. The string stands for
    [[]byte(schema.Schema)]. *)
Variable Rabin : string → N.

Definition CreateSchema (fr : fakeRegistry) (subject : string) (schema : Schema)
    : fakeRegistry * SubjectSchema :=
  let fr := init fr in
  let fp := Rabin (Schema_Schema schema) in
  let '(id, ok) := mapGet (fingerprintIDCache fr) fp in
  (* the inner [ss, ok :=] shadows [ok]: the outer one is the cache hit *)
  let found := if ok then findBySubjectID fr subject id
               else (SubjectSchema_zero, false) in
  if snd found then (fr, fst found)
  else
    let '(fr, id) := if negb ok then nextID fr else (fr, id) in
    let version := nextVersion fr subject in
    let ss := mkSubjectSchema subject version id schema in
    (mkFakeRegistry (append (schemas fr) ss)
                    (<[fp := id]> (fingerprintIDCache fr))
                    (idSequence fr) (initOnce fr),
     ss).

Definition SchemaByID (fr : fakeRegistry) (id : Z) : fakeRegistry * (Schema * bool) :=
  let fr := init fr in
  (fr, findOneByID fr id).

Definition SchemaBySubjectVersion (fr : fakeRegistry) (subject : string) (version : Z)
    : fakeRegistry * (SubjectSchema * bool) :=
  let fr := init fr in
  (fr, findBySubjectVersion fr subject version).

Definition SubjectVersionsByID (fr : fakeRegistry) (id : Z)
    : fakeRegistry * slice SubjectSchema :=
  let fr := init fr in
  (fr, findAllByID fr id).

End Registry.

(** ** The HTTP front: values on the wire *)

(** A JSON document, as [encoding/json] writes it. *)
#[warnings="-register-all"] Inductive json :=
| JNull
| JNumber (n : Z)
| JString (s : string)
| JArray (items : list json)
| JObject (members : list (string * json)).

(** The values of type [error] the handlers build or receive. The handlers
    use an error only through its [Error()] text. *)
Inductive goError :=
| NumError (Func Num : string)               (* the [*strconv.NumError] of [Atoi] on [Num] *)
| cerrors_New (text : string)
| cerrors_Errorf (format : string) (err : goError)   (* one [%w] argument *)
| LibraryError (text : string).              (* an error of [encoding/json] *)

Record Request := mkRequest {
  Method : string;
  EscapedPath : string;     (* [r.URL.EscapedPath()] *)
  Body : string
}.

Inductive payload :=
| JSONBody (j : json)
| TextBody (s : string).

Record Response := mkResponse {
  StatusCode : Z;
  ResponseBody : payload
}.

Definition StatusOK : Z := 200.
Definition StatusNotFound : Z := 404.
Definition StatusInternalServerError : Z := 500.

Definition newline : string := String (ascii_of_nat 10) EmptyString.

(** [http.NotFound(w, r)]: the plain-text reply of [net/http]. *)
Definition http_NotFound : Response :=
  mkResponse StatusNotFound (TextBody ("404 page not found" ++ newline)).

(** [strings.Split(s, sep)] for a one-byte separator. *)
Fixpoint Split (s : string) (sep : ascii) : list string :=
  match s with
  | EmptyString => [EmptyString]
  | String c s' =>
      if Ascii.eqb c sep then EmptyString :: Split s' sep
      else match Split s' sep with
           | tok :: toks => String c tok :: toks
           | [] => [String c EmptyString]
           end
  end.

Definition isDigit (c : ascii) : bool :=
  (48 <=? Z.of_nat (nat_of_ascii c)) && (Z.of_nat (nat_of_ascii c) <=? 57).

Fixpoint digitsValue (acc : Z) (s : string) : option Z :=
  match s with
  | EmptyString => Some acc
  | String c s' =>
      if isDigit c then digitsValue (acc * 10 + (Z.of_nat (nat_of_ascii c) - 48)) s'
      else None
  end.

(** [strconv.Atoi]: an optional sign, then one or more decimal digits, and
    a value that fits an [int]; anything else is a [*NumError] (the
    handlers do not tell [ErrSyntax] from [ErrRange]). *)
Definition Atoi (s : string) : Z + goError :=
  let '(neg, digits) :=
    match s with
    | String c t =>
        if Ascii.eqb c "-" then (true, t)
        else if Ascii.eqb c "+" then (false, t)
        else (false, s)
    | EmptyString => (false, s)
    end in
  match digits with
  | EmptyString => inr (NumError "Atoi" s)
  | _ =>
      match digitsValue 0 digits with
      | None => inr (NumError "Atoi" s)
      | Some n =>
          let v := if neg then - n else n in
          if GoInt.inRange v then inl v else inr (NumError "Atoi" s)
      end
  end.

(** What the handlers pass to [fs.json] as [v any]. *)
Inductive any :=
| AnyIDMap (id : Z)                              (* [map[string]any{"id": id}] *)
| AnySchema (s : Schema)
| AnySubjectSchema (ss : SubjectSchema)
| AnySubjectSchemas (sss : slice SubjectSchema).

(** ** fakeServer *)

(** [mux] is fixed by [newFakeServer] and [logf] only logs: the state of
    the server is its registry. *)
Record fakeServer := mkFakeServer {
  fr : fakeRegistry
}.

Definition newFakeServer : fakeServer := mkFakeServer fakeRegistry_zero.

(** What a handler does with a request: it writes a response and leaves
    the server in a new state, or it stops on a run-time panic (an index
    out of range). *)
Inductive outcome :=
| Panic
| Reply (fs : fakeServer) (w : Response).

(** The two patterns [newFakeServer] registers on the mux. [http.ServeMux]
    hands a request to the function of the pattern its path starts with. *)
Inductive pattern :=
| SchemasIDs    (* ["/schemas/ids/"] *)
| Subjects.     (* ["/subjects/"] *)

(** The body of an error response, in the words of the wire protocol:
    [{"error_code": <int>, "message": <string>}]. *)
Definition errorBody (code : Z) (message : string) : payload :=
  JSONBody (JObject [("error_code", JNumber code); ("message", JString message)]).

Definition isError (w : Response) (status code : Z) : Prop :=
  ∃ message, w = mkResponse status (errorBody code message).

(** The responses of the wire protocol: a success with a JSON body, the
    not-found of the transport, or one of the three structured errors. *)
Definition wireResponse (w : Response) : Prop :=
  (∃ j, w = mkResponse 200 (JSONBody j))
  ∨ w = http_NotFound
  ∨ isError w 404 40401
  ∨ isError w 404 40403
  ∨ isError w 500 50001.

Section Server.

Variable Rabin : string → N.

(** The collaborators from outside the package, kept abstract:
    [json.NewDecoder(r.Body).Decode(&s)] on the bytes of the body,
    [json.Marshal] on the two record types of the client library, and
    the [Error()] method. *)
Variable Decode : string → Schema + goError.
Variable MarshalSchema : Schema → json + goError.
Variable MarshalSubjectSchema : SubjectSchema → json + goError.
Variable ErrorText : goError → string.

Fixpoint MarshalItems (l : list SubjectSchema) : list json + goError :=
  match l with
  | [] => inl []
  | ss :: l' =>
      match MarshalSubjectSchema ss with
      | inr err => inr err
      | inl j =>
          match MarshalItems l' with
          | inr err => inr err
          | inl js => inl (j :: js)
          end
      end
  end.

(** [json.Marshal(v)]. A map is an object; a slice is an array, except
    that the nil slice is [null]. *)
Definition Marshal (v : any) : json + goError :=
  match v with
  | AnyIDMap id => inl (JObject [("id", JNumber id)])
  | AnySchema s => MarshalSchema s
  | AnySubjectSchema ss => MarshalSubjectSchema ss
  | AnySubjectSchemas Nil => inl JNull
  | AnySubjectSchemas (Mk l) =>
      match MarshalItems l with
      | inr err => inr err
      | inl js => inl (JArray js)
      end
  end.

Definition fakeServer_errorWithCode (status code : Z) (err : goError) : Response :=
  mkResponse status
    (JSONBody (JObject [("error_code", JNumber code);
                        ("message", JString (ErrorText err))])).

Definition fakeServer_error (status : Z) (err : goError) : Response :=
  fakeServer_errorWithCode status 50001 err.

(** [fs.json]: a write without [WriteHeader] sends status 200. *)
Definition fakeServer_json (v : any) : Response :=
  match Marshal v with
  | inr err => fakeServer_error StatusInternalServerError err
  | inl b => mkResponse StatusOK (JSONBody b)
  end.

Definition createSchema (fs : fakeServer) (r : Request) : outcome :=
  if negb (String.eqb (Method r) "POST") then Reply fs http_NotFound
  else
    match Decode (Body r) with
    | inr err => Reply fs (fakeServer_error StatusInternalServerError err)
    | inl s =>
        let tokens := Split (EscapedPath r) "/" in
        match tokens !! 2%nat with
        | None => Panic
        | Some subject =>
            let '(fr', ss) := CreateSchema Rabin (fr fs) subject s in
            Reply (mkFakeServer fr') (fakeServer_json (AnyIDMap (ID ss)))
        end
    end.

Definition schemaBySubjectVersion (fs : fakeServer) (r : Request) : outcome :=
  if negb (String.eqb (Method r) "GET") then Reply fs http_NotFound
  else
    let tokens := Split (EscapedPath r) "/" in
    match tokens !! 4%nat with
    | None => Panic
    | Some tok =>
        match Atoi tok with
        | inr err =>
            Reply fs (fakeServer_error StatusInternalServerError
                        (cerrors_Errorf "invalid schema version: %w" err))
        | inl version =>
            match tokens !! 2%nat with
            | None => Panic
            | Some subject =>
                let '(fr', (ss, ok)) := SchemaBySubjectVersion (fr fs) subject version in
                if negb ok then
                  Reply (mkFakeServer fr')
                    (fakeServer_errorWithCode StatusNotFound errorCodeSubjectNotFound
                       (cerrors_New "subject not found"))
                else Reply (mkFakeServer fr') (fakeServer_json (AnySubjectSchema ss))
            end
        end
    end.

Definition schemaByID (fs : fakeServer) (r : Request) : outcome :=
  if negb (String.eqb (Method r) "GET") then Reply fs http_NotFound
  else
    let tokens := Split (EscapedPath r) "/" in
    match tokens !! 3%nat with
    | None => Panic
    | Some tok =>
        match Atoi tok with
        | inr err =>
            Reply fs (fakeServer_error StatusInternalServerError
                        (cerrors_Errorf "invalid schema ID: %w" err))
        | inl id =>
            let '(fr', (s, ok)) := SchemaByID (fr fs) id in
            if negb ok then
              Reply (mkFakeServer fr')
                (fakeServer_errorWithCode StatusNotFound errorCodeSchemaNotFound
                   (cerrors_New "schema not found"))
            else Reply (mkFakeServer fr') (fakeServer_json (AnySchema s))
        end
    end.

Definition subjectVersionsByID (fs : fakeServer) (r : Request) : outcome :=
  if negb (String.eqb (Method r) "GET") then Reply fs http_NotFound
  else
    let tokens := Split (EscapedPath r) "/" in
    match tokens !! 3%nat with
    | None => Panic
    | Some tok =>
        match Atoi tok with
        | inr err =>
            Reply fs (fakeServer_error StatusInternalServerError
                        (cerrors_Errorf "invalid schema ID: %w" err))
        | inl id =>
            let '(fr', sss) := SubjectVersionsByID (fr fs) id in
            Reply (mkFakeServer fr') (fakeServer_json (AnySubjectSchemas sss))
        end
    end.

(** The function [newFakeServer] registers for the pattern
    ["/schemas/ids/"]. *)
Definition schemasIDsRoute (fs : fakeServer) (r : Request) : outcome :=
  let tokens := Split (EscapedPath r) "/" in
  if (length tokens =? 4)%nat then schemaByID fs r
  else if (length tokens =? 5)%nat
          && bool_decide (tokens !! 4%nat = Some "versions") then
    subjectVersionsByID fs r
  else Reply fs http_NotFound.

(** The function [newFakeServer] registers for the pattern ["/subjects/"]. *)
Definition subjectsRoute (fs : fakeServer) (r : Request) : outcome :=
  let tokens := Split (EscapedPath r) "/" in
  if (length tokens =? 4)%nat
     && bool_decide (tokens !! 3%nat = Some "versions") then
    createSchema fs r
  else if (length tokens =? 5)%nat
          && bool_decide (tokens !! 3%nat = Some "versions") then
    schemaBySubjectVersion fs r
  else Reply fs http_NotFound.

Definition serve (fs : fakeServer) (p : pattern) (r : Request) : outcome :=
  match p with
  | SchemasIDs => schemasIDsRoute fs r
  | Subjects => subjectsRoute fs r
  end.

(** A sequence of requests, one after the other; [None] when a handler
    panics. *)
Fixpoint serveAll (fs : fakeServer) (reqs : list (pattern * Request))
    : option fakeServer :=
  match reqs with
  | [] => Some fs
  | (p, r) :: reqs' =>
      match serve fs p r with
      | Panic => None
      | Reply fs' _ => serveAll fs' reqs'
      end
  end.

End Server.

(** ** Sequences of calls on one registry *)

Inductive call :=
| CallCreateSchema (subject : string) (schema : Schema)
| CallSchemaByID (id : Z)
| CallSchemaBySubjectVersion (subject : string) (version : Z)
| CallSubjectVersionsByID (id : Z).

Inductive result :=
| Created (ss : SubjectSchema)
| GotSchema (s : Schema) (ok : bool)
| GotSubjectSchema (ss : SubjectSchema) (ok : bool)
| GotSubjectSchemas (sss : slice SubjectSchema).

(** The records of the store, in insertion order. *)
Definition records (fr : fakeRegistry) : list SubjectSchema := elems (schemas fr).

(** The records of one subject, in insertion order. *)
Definition recordsOf (subject : string) (l : list SubjectSchema) : list SubjectSchema :=
  filter (λ ss, Subject ss = subject) l.

(** The records with one id, in insertion order. *)
Definition recordsWithID (id : Z) (l : list SubjectSchema) : list SubjectSchema :=
  filter (λ ss, ID ss = id) l.

(** The text of the schema a record holds. *)
Definition text (ss : SubjectSchema) : string := Schema_Schema (SubjectSchema_Schema ss).

(** [len(fr.schemas)] is an [int]: the Go runtime has no longer slice. *)
Definition fitsInt (fr : fakeRegistry) : Prop := len (schemas fr) ≤ GoInt.maxInt.

(** The schema texts the calls register, and those they register under
    one subject, in call order. *)
Definition registered (cs : list call) : list string :=
  omap (λ c, match c with
             | CallCreateSchema _ schema => Some (Schema_Schema schema)
             | _ => None
             end) cs.

Definition registeredFor (subject : string) (cs : list call) : list string :=
  omap (λ c, match c with
             | CallCreateSchema subject' schema =>
                 if decide (subject' = subject) then Some (Schema_Schema schema) else None
             | _ => None
             end) cs.

Arguments registered : simpl never.
Arguments registeredFor : simpl never.

(** The versions [1, 2, ..., n]. *)
Definition versionsUpTo (n : nat) : list Z := Z.of_nat <$> seq 1 n.

Section Runs.

Variable Rabin : string → N.

Definition exec (fr : fakeRegistry) (c : call) : fakeRegistry * result :=
  match c with
  | CallCreateSchema subject schema =>
      let '(fr', ss) := CreateSchema Rabin fr subject schema in (fr', Created ss)
  | CallSchemaByID id =>
      let '(fr', (s, ok)) := SchemaByID fr id in (fr', GotSchema s ok)
  | CallSchemaBySubjectVersion subject version =>
      let '(fr', (ss, ok)) := SchemaBySubjectVersion fr subject version in
      (fr', GotSubjectSchema ss ok)
  | CallSubjectVersionsByID id =>
      let '(fr', sss) := SubjectVersionsByID fr id in (fr', GotSubjectSchemas sss)
  end.

Fixpoint run (fr : fakeRegistry) (cs : list call) : fakeRegistry * list result :=
  match cs with
  | [] => (fr, [])
  | c :: cs' =>
      let '(fr1, x) := exec fr c in
      let '(fr2, xs) := run fr1 cs' in
      (fr2, x :: xs)
  end.

(** The fingerprint does not collide on the texts of [l]. *)
Definition collisionFree (l : list string) : Prop :=
  Forall (λ a, Forall (λ b, Rabin a = Rabin b → a = b) l) l.

(** What every store reached from the zero value satisfies. *)
Record Inv (fr : fakeRegistry) : Prop := mkInv {
  inv_uninit :
    initOnce fr = false → records fr = [] ∧ fingerprintIDCache fr = ∅;
  inv_seq :
    0 ≤ idSequence fr ≤ len (schemas fr);
  inv_cache_range : ∀ fp id,
    fingerprintIDCache fr !! fp = Some id → 1 ≤ id ≤ idSequence fr;
  inv_cache_inj : ∀ fp1 fp2 id,
    fingerprintIDCache fr !! fp1 = Some id →
    fingerprintIDCache fr !! fp2 = Some id → fp1 = fp2;
  inv_records : ∀ ss,
    ss ∈ records fr → fingerprintIDCache fr !! Rabin (text ss) = Some (ID ss);
  inv_versions : ∀ subject,
    Version <$> recordsOf subject (records fr)
    = versionsUpTo (length (recordsOf subject (records fr)));
  inv_version_range : ∀ ss,
    ss ∈ records fr →
    1 ≤ Version ss ≤ Z.of_nat (length (recordsOf (Subject ss) (records fr)));
  inv_subject_version : ∀ i j ssi ssj,
    records fr !! i = Some ssi → records fr !! j = Some ssj →
    Subject ssi = Subject ssj → Version ssi = Version ssj → i = j;
  inv_subject_id : ∀ i j ssi ssj,
    records fr !! i = Some ssi → records fr !! j = Some ssj →
    Subject ssi = Subject ssj → ID ssi = ID ssj → i = j
}.

End Runs.

Section Backing.

Variable Rabin : string → N.

(** The cache against the records and the id sequence: every cached
    fingerprint is the fingerprint of a stored record with the cached id,
    every id up to [idSequence] is cached, and the cache holds as many
    fingerprints as ids were handed out. *)
Record Backed (fr : fakeRegistry) : Prop := mkBacked {
  backed_cache : ∀ fp id,
    fingerprintIDCache fr !! fp = Some id →
    ∃ ss, ss ∈ records fr ∧ Rabin (text ss) = fp ∧ ID ss = id;
  backed_ids : ∀ k,
    1 ≤ k ≤ idSequence fr → ∃ fp, fingerprintIDCache fr !! fp = Some k;
  backed_size :
    idSequence fr = Z.of_nat (size (fingerprintIDCache fr))
}.

End Backing.

(** The calls that are lookups. *)
Definition isLookup (c : call) : bool :=
  match c with
  | CallCreateSchema _ _ => false
  | _ => true
  end.

(** ** testSchemaRegistryURL

    The servers of [httptest] live on the heap: a [*httptest.Server] is an
    index into [heap]. A [*testing.T] is its name and the servers its
    cleanup functions close, the last registered first. *)

Record httptestServer := mkHttptestServer {
  URL : string;
  Handler : fakeServer;     (* [srv.Config.Handler], the [*fakeServer] *)
  closed : bool             (* whether [srv.Close()] has run *)
}.

Record testingT := mkTestingT {
  Name : string;
  cleanups : list nat
}.

Record testWorld := mkTestWorld {
  heap : list httptestServer;
  fakeServerByTest : gmap string nat   (* map[string]*httptest.Server *)
}.

(** The package at start: [make(map[string]*httptest.Server)], no server. *)
Definition testWorld_zero : testWorld := mkTestWorld [] ∅.

(** [srv.Close()] *)
Definition Close (w : testWorld) (p : nat) : testWorld :=
  mkTestWorld (alter (λ srv, mkHttptestServer (URL srv) (Handler srv) true) p (heap w))
              (fakeServerByTest w).

(** The cleanup functions of [t], run when the test ends. *)
Definition runCleanups (w : testWorld) (t : testingT) : testWorld :=
  foldl Close w (cleanups t).

Section TestServers.

(** The address [httptest.NewServer] gives the server it starts, by the
    number of servers started before. *)
Variable NewServerURL : nat → string.

(** [None] stands for the panic of a nil dereference in [srv.URL]. *)
Definition testSchemaRegistryURL (w : testWorld) (t : testingT)
    : option (testWorld * testingT * string) :=
  match fakeServerByTest w !! Name t with
  | Some p =>
      match heap w !! p with
      | Some srv => Some (w, t, URL srv)
      | None => None
      end
  | None =>
      let p := length (heap w) in
      let srv := mkHttptestServer (NewServerURL p) newFakeServer false in
      Some (mkTestWorld (heap w ++ [srv]) (<[Name t := p]> (fakeServerByTest w)),
            mkTestingT (Name t) (p :: cleanups t),
            URL srv)
  end.

(** What happens to the package in a test run: a test asks for its
    registry, or a cleanup closes a server. *)
Inductive testStep :=
| StepSetup (t : testingT)
| StepClose (p : nat).

Fixpoint runTests (w : testWorld) (steps : list testStep) : option testWorld :=
  match steps with
  | [] => Some w
  | StepSetup t :: steps' =>
      match testSchemaRegistryURL w t with
      | Some (w', _, _) => runTests w' steps'
      | None => None
      end
  | StepClose p :: steps' => runTests (Close w p) steps'
  end.

End TestServers.

(** ** Stand-ins for the collaborators, to run the model on examples *)

Module Sample.

Definition EMPTY : N := 0xc15d213aa4d7a795%N.

Definition tableEntry (i : N) : N :=
  N.iter 8 (λ fp, N.lxor (N.shiftr fp 1) (if N.testbit fp 0 then EMPTY else 0%N)) i.

Fixpoint fingerprint (fp : N) (s : string) : N :=
  match s with
  | EmptyString => fp
  | String c s' =>
      fingerprint
        (N.lxor (N.shiftr fp 8) (tableEntry (N.land (N.lxor fp (N_of_ascii c)) 255))) s'
  end.

(** One 64-bit fingerprint to run the examples with, a CRC of the bytes;
    the theorems hold for every fingerprint function. *)
Definition Rabin (s : string) : N := fingerprint EMPTY s.

(** A decoder that takes the body for the schema text, and fails on the
    empty body as a JSON decoder does. *)
Definition Decode (body : string) : Schema + goError :=
  match body with
  | EmptyString => inr (LibraryError "EOF")
  | _ => inl (mkSchema body 0)
  end.

Definition MarshalSchema (s : Schema) : json + goError :=
  inl (JObject [("schema", JString (Schema_Schema s))]).

Definition MarshalSubjectSchema (ss : SubjectSchema) : json + goError :=
  inl (JObject [("subject", JString (Subject ss));
                ("version", JNumber (Version ss));
                ("id", JNumber (ID ss));
                ("schema", JString (text ss))]).

Fixpoint ErrorText (e : goError) : string :=
  match e with
  | NumError f num => "strconv." ++ f ++ ": parsing " ++ num
  | cerrors_New t => t
  | cerrors_Errorf format err => format ++ " " ++ ErrorText err
  | LibraryError t => t
  end.

(** Schema texts and requests to run the model on. *)
Definition dq : string := String (ascii_of_nat 34) EmptyString.

Definition stringSchema : Schema :=
  mkSchema ("{" ++ dq ++ "type" ++ dq ++ ":" ++ dq ++ "string" ++ dq ++ "}") 0.

Definition intSchema : Schema := mkSchema (dq ++ "int" ++ dq) 0.

Definition calls : list call :=
  [CallCreateSchema "foo" stringSchema;
   CallCreateSchema "bar" stringSchema;
   CallSchemaByID 1;
   CallCreateSchema "foo" intSchema].

Definition laterCalls : list call :=
  [CallCreateSchema "foo" stringSchema;
   CallCreateSchema "bar" intSchema;
   CallSubjectVersionsByID 2].

(** The store after [calls]. *)
Definition store : fakeRegistry := fst (run Rabin fakeRegistry_zero calls).

Definition postFoo : Request :=
  mkRequest "POST" "/subjects/foo/versions" (Schema_Schema stringSchema).

Definition server : fakeServer :=
  match serveAll Rabin Decode MarshalSchema MarshalSubjectSchema ErrorText
          newFakeServer [(Subjects, postFoo)] with
  | Some fs => fs
  | None => newFakeServer
  end.

Definition getVersionsOfID1 : Request :=
  mkRequest "GET" "/schemas/ids/1/versions" EmptyString.

Definition getID1 : Request := mkRequest "GET" "/schemas/ids/1" EmptyString.


(** The store after [calls] and [laterCalls]. *)
Definition laterStore : fakeRegistry :=
  fst (run Rabin fakeRegistry_zero (calls ++ laterCalls)).

(** An address for the [n]-th server of a test run. *)
Definition NewServerURL (n : nat) : string :=
  "http://127.0.0.1:4000" ++ String (ascii_of_nat (48 + n)) EmptyString.

Definition testEncode : testingT := mkTestingT "TestEncode" [].

Definition postBar : Request :=
  mkRequest "POST" "/subjects/bar/versions" (Schema_Schema intSchema).

Definition getID2 : Request := mkRequest "GET" "/schemas/ids/2" EmptyString.

(** The package after [testEncode] asked for its registry. *)
Definition testEncodeWorld : testWorld :=
  mkTestWorld [mkHttptestServer (NewServerURL 0) newFakeServer false]
    (<["TestEncode" := 0%nat]> ∅).

End Sample.

(** * Properties *)

Open Scope list_scope.

(** ** Go's [int] and slices *)

Lemma wrap_inRange z : GoInt.minInt ≤ z ≤ GoInt.maxInt → GoInt.wrap z = z.
Proof.
  unfold GoInt.minInt, GoInt.maxInt, GoInt.wrap. intros Hz.
  rewrite Z.mod_small; lia.
Qed.

Lemma add_one_inRange z : 0 ≤ z < GoInt.maxInt → GoInt.add z 1 = z + 1.
Proof.
  intros Hz. unfold GoInt.add. apply wrap_inRange.
  unfold GoInt.minInt, GoInt.maxInt in *. lia.
Qed.

Lemma elems_append {A} (s : slice A) x : elems (append s x) = elems s ++ [x].
Proof. reflexivity. Qed.

Lemma eqb_string_decide (a b : string) :
  String.eqb a b = bool_decide (a = b).
Proof.
  destruct (String.eqb_spec a b) as [->|Hne].
  - by rewrite bool_decide_eq_true_2.
  - by rewrite bool_decide_eq_false_2.
Qed.

Lemma eqb_Z_decide (a b : Z) : (a =? b) = bool_decide (a = b).
Proof.
  destruct (Z.eqb_spec a b) as [->|Hne].
  - by rewrite bool_decide_eq_true_2.
  - by rewrite bool_decide_eq_false_2.
Qed.

(** ** The loops of the store, as list functions *)

Lemma findBySubject_loop_elems subject l sss :
  elems (findBySubject_loop subject l sss) = elems sss ++ recordsOf subject l.
Proof.
  revert sss. induction l as [|ss l IH]; intros sss; simpl.
  - by rewrite app_nil_r.
  - rewrite IH. unfold recordsOf. rewrite filter_cons.
    rewrite eqb_string_decide. case_bool_decide as Hs.
    + rewrite decide_True by done. rewrite elems_append, <- app_assoc. done.
    + rewrite decide_False by done. done.
Qed.

Lemma findBySubject_elems fr subject :
  elems (findBySubject fr subject) = recordsOf subject (records fr).
Proof. unfold findBySubject. by rewrite findBySubject_loop_elems. Qed.

Lemma findAllByID_loop_elems id l sss :
  elems (findAllByID_loop id l sss) = elems sss ++ recordsWithID id l.
Proof.
  revert sss. induction l as [|ss l IH]; intros sss; simpl.
  - by rewrite app_nil_r.
  - rewrite IH. unfold recordsWithID. rewrite filter_cons.
    rewrite eqb_Z_decide. case_bool_decide as Hs.
    + rewrite decide_True by done. rewrite elems_append, <- app_assoc. done.
    + rewrite decide_False by done. done.
Qed.

(** The loop returns the nil slice it started from exactly when nothing
    was appended. *)
Lemma findAllByID_loop_nil id l :
  findAllByID_loop id l Nil = Nil ↔ recordsWithID id l = [].
Proof.
  split.
  - intros H. pose proof (findAllByID_loop_elems id l Nil) as He.
    rewrite H in He. simpl in He. done.
  - induction l as [|ss l IH]; simpl; [done|].
    unfold recordsWithID. rewrite filter_cons, eqb_Z_decide.
    case_bool_decide as Hs.
    + by rewrite decide_True by done.
    + rewrite decide_False by done. apply IH.
Qed.

Lemma findOneByID_loop_find id l :
  findOneByID_loop id l =
  match list_find (λ ss, ID ss = id) l with
  | Some (_, ss) => (SubjectSchema_Schema ss, true)
  | None => (Schema_zero, false)
  end.
Proof.
  induction l as [|ss l IH]; simpl; [done|].
  rewrite eqb_Z_decide. case_bool_decide as Hs.
  - by rewrite decide_True by done.
  - rewrite decide_False by done. rewrite IH.
    by destruct (list_find _ l) as [[? ?]|].
Qed.

Lemma findBySubjectID_loop_find subject id l :
  findBySubjectID_loop subject id l =
  match list_find (λ ss, Subject ss = subject ∧ ID ss = id) l with
  | Some (_, ss) => (ss, true)
  | None => (SubjectSchema_zero, false)
  end.
Proof.
  induction l as [|ss l IH]; simpl; [done|].
  rewrite eqb_string_decide, eqb_Z_decide.
  destruct (decide (Subject ss = subject ∧ ID ss = id)) as [[H1 H2]|Hn].
  - by rewrite !bool_decide_eq_true_2 by done.
  - rewrite IH. destruct (list_find _ l) as [[? ?]|];
      repeat case_bool_decide; simpl; try done; by destruct Hn.
Qed.

Lemma findBySubjectVersion_loop_find subject version l :
  findBySubjectVersion_loop subject version l =
  match list_find (λ ss, Subject ss = subject ∧ Version ss = version) l with
  | Some (_, ss) => (ss, true)
  | None => (SubjectSchema_zero, false)
  end.
Proof.
  induction l as [|ss l IH]; simpl; [done|].
  rewrite eqb_string_decide, eqb_Z_decide.
  destruct (decide (Subject ss = subject ∧ Version ss = version)) as [[H1 H2]|Hn].
  - by rewrite !bool_decide_eq_true_2 by done.
  - rewrite IH. destruct (list_find _ l) as [[? ?]|];
      repeat case_bool_decide; simpl; try done; by destruct Hn.
Qed.

(** ** The store *)

Section StoreFacts.

Variable Rabin : string → N.

Lemma init_initOnce fr : initOnce (init fr) = true.
Proof. unfold init. by destruct (initOnce fr) eqn:E. Qed.

Lemma init_done fr : initOnce fr = true → init fr = fr.
Proof. unfold init. by intros ->. Qed.

Lemma init_init fr : init (init fr) = init fr.
Proof. apply init_done, init_initOnce. Qed.

Lemma init_zero : init fakeRegistry_zero = mkFakeRegistry make0 ∅ 0 true.
Proof. reflexivity. Qed.

(** The three ways through [CreateSchema], on the store [init] leaves:
    the record of this subject and id is there; the id is known but not
    under this subject; the fingerprint is new. *)
Lemma CreateSchema_cases fr subject schema :
  let fr0 := init fr in
  let fp := Rabin (Schema_Schema schema) in
  (∃ id ss,
      fingerprintIDCache fr0 !! fp = Some id ∧
      findBySubjectID fr0 subject id = (ss, true) ∧
      CreateSchema Rabin fr subject schema = (fr0, ss))
  ∨ (∃ id,
      fingerprintIDCache fr0 !! fp = Some id ∧
      snd (findBySubjectID fr0 subject id) = false ∧
      let ss := mkSubjectSchema subject (nextVersion fr0 subject) id schema in
      CreateSchema Rabin fr subject schema =
        (mkFakeRegistry (append (schemas fr0) ss) (fingerprintIDCache fr0)
                        (idSequence fr0) true, ss))
  ∨ (fingerprintIDCache fr0 !! fp = None ∧
      let id := GoInt.add (idSequence fr0) 1 in
      let ss := mkSubjectSchema subject (nextVersion fr0 subject) id schema in
      CreateSchema Rabin fr subject schema =
        (mkFakeRegistry (append (schemas fr0) ss)
                        (<[fp := id]> (fingerprintIDCache fr0)) id true, ss)).
Proof.
  intros fr0 fp. unfold CreateSchema, mapGet. fold fr0. fold fp.
  pose proof (init_initOnce fr) as Hi. fold fr0 in Hi.
  destruct (fingerprintIDCache fr0 !! fp) as [id|] eqn:Hc.
  - destruct (findBySubjectID fr0 subject id) as [ss ok] eqn:Hf.
    destruct ok; simpl.
    + left. by exists id, ss.
    + right; left. exists id. rewrite Hf. split; [done|]. split; [done|].
      simpl. rewrite Hi. by rewrite insert_id.
  - right; right. split; [done|]. simpl. by rewrite Hi.
Qed.

Lemma Inv_zero : Inv Rabin fakeRegistry_zero.
Proof.
  split; simpl; try done;
    intros ss Hin; unfold records in Hin; simpl in Hin;
    by apply elem_of_nil in Hin.
Qed.

Lemma records_init fr :
  (initOnce fr = false → records fr = []) → records (init fr) = records fr.
Proof.
  unfold init. destruct (initOnce fr); [done|]. intros H. by rewrite H.
Qed.

Lemma Inv_init fr : Inv Rabin fr → Inv Rabin (init fr).
Proof.
  intros HI. unfold init. destruct (initOnce fr) eqn:E; [done|].
  destruct (inv_uninit _ _ HI E) as [Hr Hc].
  pose proof (inv_seq _ _ HI) as Hs.
  unfold records in Hr. unfold len in Hs. rewrite Hr in Hs. simpl in Hs.
  split; simpl; try done;
    intros ss Hin; unfold records in Hin; simpl in Hin;
    by apply elem_of_nil in Hin.
Qed.

Lemma len_records fr : len (schemas fr) = Z.of_nat (length (records fr)).
Proof. reflexivity. Qed.

Lemma recordsOf_snoc subject l ss :
  recordsOf subject (l ++ [ss]) =
  recordsOf subject l ++ (if decide (Subject ss = subject) then [ss] else []).
Proof.
  unfold recordsOf. by rewrite filter_app.
Qed.

Lemma versionsUpTo_snoc n : versionsUpTo (S n) = versionsUpTo n ++ [Z.of_nat n + 1].
Proof.
  unfold versionsUpTo. rewrite seq_S, fmap_app. simpl. do 2 f_equal. lia.
Qed.

Lemma length_recordsOf subject l : (length (recordsOf subject l) ≤ length l)%nat.
Proof. apply length_filter. Qed.

(** With room for one more record, the next version is the count of the
    subject's records plus one. *)
Lemma nextVersion_count fr subject :
  len (schemas fr) < GoInt.maxInt →
  nextVersion fr subject = Z.of_nat (length (recordsOf subject (records fr))) + 1.
Proof.
  intros Hlen. unfold nextVersion, len. rewrite findBySubject_elems.
  apply add_one_inRange. rewrite len_records in Hlen.
  pose proof (length_recordsOf subject (records fr)). lia.
Qed.

Lemma findBySubjectID_false fr subject id :
  snd (findBySubjectID fr subject id) = false →
  ∀ ss, ss ∈ records fr → Subject ss = subject → ID ss ≠ id.
Proof.
  unfold findBySubjectID. rewrite findBySubjectID_loop_find.
  destruct (list_find _ _) as [[? ?]|] eqn:Hf; [done|]. intros _.
  apply list_find_None in Hf. intros ss Hin Hs Hid.
  rewrite Forall_forall in Hf. by apply (Hf ss Hin).
Qed.

Lemma findBySubjectID_true fr subject id ss :
  findBySubjectID fr subject id = (ss, true) →
  ∃ i, records fr !! i = Some ss ∧ Subject ss = subject ∧ ID ss = id ∧
       ∀ j ss', records fr !! j = Some ss' → (j < i)%nat →
                ¬ (Subject ss' = subject ∧ ID ss' = id).
Proof.
  unfold findBySubjectID. rewrite findBySubjectID_loop_find.
  destruct (list_find _ _) as [[i x]|] eqn:Hf; [|done].
  intros [= ->]. apply list_find_Some in Hf as (Hl & [Hs Hid] & Hfirst).
  exists i. eauto.
Qed.

(** Every id held by a record was handed out by [nextID]. *)
Lemma Inv_record_id fr ss :
  Inv Rabin fr → ss ∈ records fr → 1 ≤ ID ss ≤ idSequence fr.
Proof.
  intros HI Hin. eapply inv_cache_range; [done|]. by apply inv_records.
Qed.

(** The store after the append of [CreateSchema], on either way to it. *)
Lemma Inv_appended fr subject schema id idseq :
  Inv Rabin fr → initOnce fr = true →
  len (schemas fr) < GoInt.maxInt →
  (fingerprintIDCache fr !! Rabin (Schema_Schema schema) = Some id ∧
     idseq = idSequence fr ∧ snd (findBySubjectID fr subject id) = false)
  ∨ (fingerprintIDCache fr !! Rabin (Schema_Schema schema) = None ∧
     id = idSequence fr + 1 ∧ idseq = id) →
  Inv Rabin
    (mkFakeRegistry
       (append (schemas fr)
               (mkSubjectSchema subject (nextVersion fr subject) id schema))
       (<[Rabin (Schema_Schema schema) := id]> (fingerprintIDCache fr))
       idseq true).
Proof.
  intros HI Hinit Hlen Hcase.
  pose proof (inv_seq _ _ HI) as Hseq.
  set (fp := Rabin (Schema_Schema schema)) in *.
  set (new := mkSubjectSchema subject (nextVersion fr subject) id schema).
  assert (Hrec : records (mkFakeRegistry (append (schemas fr) new)
                    (<[fp := id]> (fingerprintIDCache fr)) idseq true)
                 = records fr ++ [new]) by reflexivity.
  assert (Hfresh : ∀ ss, ss ∈ records fr → Subject ss = subject → ID ss ≠ id).
  { destruct Hcase as [(Hc & -> & Hf)|(Hc & -> & ->)].
    - by apply findBySubjectID_false.
    - intros ss Hin _. pose proof (Inv_record_id _ _ HI Hin). lia. }
  split.
  - done.
  - simpl. unfold len in *. simpl. rewrite length_app. simpl.
    destruct Hcase as [(Hc & -> & Hf)|(Hc & -> & ->)]; lia.
  - simpl. intros fp' id' Hl.
    destruct (decide (fp = fp')) as [<-|Hne].
    + rewrite lookup_insert_eq in Hl. injection Hl as <-.
      destruct Hcase as [(Hc & -> & Hf)|(Hc & -> & ->)].
      * by eapply inv_cache_range.
      * lia.
    + rewrite lookup_insert_ne in Hl by done.
      pose proof (inv_cache_range _ _ HI _ _ Hl).
      destruct Hcase as [(Hc & -> & Hf)|(Hc & -> & ->)]; lia.
  - simpl. intros fp1 fp2 id' H1 H2.
    destruct Hcase as [(Hc & -> & Hf)|(Hc & -> & ->)].
    + rewrite insert_id in H1, H2 by done. by eapply inv_cache_inj.
    + destruct (decide (fp = fp1)) as [<-|Hne1];
        destruct (decide (fp = fp2)) as [<-|Hne2]; [done|..].
      * rewrite lookup_insert_eq in H1. injection H1 as <-.
        rewrite lookup_insert_ne in H2 by done.
        pose proof (inv_cache_range _ _ HI _ _ H2). lia.
      * rewrite lookup_insert_eq in H2. injection H2 as <-.
        rewrite lookup_insert_ne in H1 by done.
        pose proof (inv_cache_range _ _ HI _ _ H1). lia.
      * rewrite lookup_insert_ne in H1, H2 by done. by eapply inv_cache_inj.
  - rewrite Hrec. simpl. intros ss Hin.
    apply elem_of_app in Hin as [Hin|Hin].
    + pose proof (inv_records _ _ HI _ Hin) as Hl.
      destruct (decide (fp = Rabin (text ss))) as [He|Hne].
      * rewrite <- He in *. rewrite lookup_insert_eq.
        destruct Hcase as [(Hc & -> & Hf)|(Hc & -> & ->)]; congruence.
      * by rewrite lookup_insert_ne.
    + apply list_elem_of_singleton in Hin as ->.
      unfold text. simpl. fold fp. by rewrite lookup_insert_eq.
  - rewrite Hrec. intros subject'. rewrite recordsOf_snoc.
    destruct (decide (Subject new = subject')) as [Hs|Hs].
    + simpl in Hs. subst subject'.
      rewrite fmap_app, length_app. simpl.
      rewrite Nat.add_1_r, versionsUpTo_snoc.
      rewrite (inv_versions _ _ HI). f_equal.
      by rewrite nextVersion_count.
    + rewrite !app_nil_r. apply (inv_versions _ _ HI).
  - rewrite Hrec. intros ss Hin. rewrite recordsOf_snoc, length_app.
    apply elem_of_app in Hin as [Hin|Hin].
    + pose proof (inv_version_range _ _ HI _ Hin). lia.
    + apply list_elem_of_singleton in Hin as ->. simpl.
      rewrite decide_True by done. simpl.
      rewrite nextVersion_count by done. lia.
  - rewrite Hrec. intros i j ssi ssj Hi Hj Hs Hv.
    apply lookup_snoc_Some in Hi as [[Hi1 Hi2]|[Hi1 Hi2]];
      apply lookup_snoc_Some in Hj as [[Hj1 Hj2]|[Hj1 Hj2]].
    + by eapply (inv_subject_version _ _ HI).
    + subst ssj. simpl in *. exfalso.
      apply list_elem_of_lookup_2 in Hi2.
      pose proof (inv_version_range _ _ HI _ Hi2) as Hrange.
      rewrite Hs, Hv, nextVersion_count in Hrange by done. lia.
    + subst ssi. simpl in *. exfalso.
      apply list_elem_of_lookup_2 in Hj2.
      pose proof (inv_version_range _ _ HI _ Hj2) as Hrange.
      rewrite <- Hs, <- Hv, nextVersion_count in Hrange by done. lia.
    + lia.
  - rewrite Hrec. intros i j ssi ssj Hi Hj Hs Hid.
    apply lookup_snoc_Some in Hi as [[Hi1 Hi2]|[Hi1 Hi2]];
      apply lookup_snoc_Some in Hj as [[Hj1 Hj2]|[Hj1 Hj2]].
    + by eapply (inv_subject_id _ _ HI).
    + subst ssj. simpl in *. exfalso.
      eapply Hfresh; [by eapply list_elem_of_lookup_2|done..].
    + subst ssi. simpl in *. exfalso.
      eapply Hfresh; [by eapply list_elem_of_lookup_2|done..].
    + lia.
Qed.

Lemma init_view fr :
  Inv Rabin fr →
  records (init fr) = records fr ∧
  fingerprintIDCache (init fr) = fingerprintIDCache fr ∧
  idSequence (init fr) = idSequence fr.
Proof.
  intros HI. unfold init. destruct (initOnce fr) eqn:E; [done|].
  destruct (inv_uninit _ _ HI E) as [-> ->]. done.
Qed.

(** One [CreateSchema] on a store that satisfies the invariant and has
    room for the record: what it returns and what it leaves. *)
Lemma CreateSchema_step fr subject schema fr' ss :
  Inv Rabin fr →
  CreateSchema Rabin fr subject schema = (fr', ss) →
  fitsInt fr' →
  Inv Rabin fr' ∧ initOnce fr' = true ∧ Subject ss = subject ∧
  fingerprintIDCache fr' !! Rabin (Schema_Schema schema) = Some (ID ss) ∧
  (∀ fp id, fingerprintIDCache fr !! fp = Some id →
            fingerprintIDCache fr' !! fp = Some id) ∧
  ((records fr' = records fr ∧ ss ∈ records fr ∧
    Rabin (text ss) = Rabin (Schema_Schema schema))
   ∨ (records fr' = records fr ++ [ss] ∧ SubjectSchema_Schema ss = schema ∧
      ∀ ss', ss' ∈ records fr → Subject ss' = subject →
             Rabin (text ss') ≠ Rabin (Schema_Schema schema))).
Proof.
  intros HI HC Hfit.
  pose proof (Inv_init _ HI) as HI0.
  pose proof (init_initOnce fr) as Hinit.
  destruct (init_view _ HI) as (Hr & Hc & Hs).
  destruct (CreateSchema_cases fr subject schema)
    as [(id & ss0 & Hl & Hf & HC')|[(id & Hl & Hf & HC')|(Hl & HC')]];
    simpl in HC'; rewrite HC in HC'; injection HC' as -> ->.
  - (* the record is there *)
    apply findBySubjectID_true in Hf as (i & Hi & Hsub & Hid & _).
    apply list_elem_of_lookup_2 in Hi.
    pose proof (inv_records _ _ HI0 _ Hi) as Hrec.
    rewrite Hr in Hi. rewrite Hc in *.
    split_and!; try done.
    + congruence.
    + left. split_and!; try done.
      rewrite Hid in Hrec. by eapply (inv_cache_inj _ _ HI).
  - (* the id is known, the subject is new to it *)
    assert (Hroom : len (schemas (init fr)) < GoInt.maxInt).
    { unfold fitsInt, len in *. simpl in Hfit. rewrite length_app in Hfit.
      simpl in Hfit. lia. }
    pose proof (Inv_appended (init fr) subject schema id (idSequence (init fr))
                  HI0 Hinit Hroom (or_introl (conj Hl (conj eq_refl Hf)))) as HI'.
    rewrite insert_id in HI' by done.
    split_and!; try done.
    + intros fp id'. by rewrite Hc.
    + right. unfold records at 1. simpl. fold (records (init fr)). rewrite Hr.
      split_and!; try done.
      intros ss' Hin Hsub Hfp.
      rewrite <- Hr in Hin.
      pose proof (inv_records _ _ HI0 _ Hin) as Hrec. rewrite Hfp, Hl in Hrec.
      injection Hrec as Hid.
      by eapply (findBySubjectID_false _ _ _ Hf ss').
  - (* the fingerprint is new *)
    assert (Hroom : len (schemas (init fr)) < GoInt.maxInt).
    { unfold fitsInt, len in *. simpl in Hfit. rewrite length_app in Hfit.
      simpl in Hfit. lia. }
    pose proof (inv_seq _ _ HI0) as Hseq.
    assert (Hadd : GoInt.add (idSequence (init fr)) 1 = idSequence (init fr) + 1).
    { apply add_one_inRange. lia. }
    rewrite Hadd.
    pose proof (Inv_appended (init fr) subject schema (idSequence (init fr) + 1)
                  (idSequence (init fr) + 1)
                  HI0 Hinit Hroom (or_intror (conj Hl (conj eq_refl eq_refl)))) as HI'.
    split_and!; try done.
    + simpl. by rewrite lookup_insert_eq.
    + intros fp id' Hfp. simpl. rewrite <- Hc in Hfp.
      rewrite lookup_insert_ne; [done|]. intros <-. congruence.
    + right. unfold records at 1. simpl. fold (records (init fr)). rewrite Hr.
      split_and!; try done.
      intros ss' Hin Hsub Hfp.
      rewrite <- Hr in Hin.
      pose proof (inv_records _ _ HI0 _ Hin) as Hrec. rewrite Hfp, Hl in Hrec.
      done.
Qed.

(** ** Sequences of calls *)

(** A lookup leaves the store as [init] leaves it. *)
Lemma exec_lookup fr c :
  (∀ subject schema, c ≠ CallCreateSchema subject schema) →
  fst (exec Rabin fr c) = init fr.
Proof.
  intros Hc. destruct c as [subject schema| id | subject version | id]; simpl.
  - by destruct (Hc subject schema).
  - unfold SchemaByID. by destruct (findOneByID _ _).
  - unfold SchemaBySubjectVersion. by destruct (findBySubjectVersion _ _ _).
  - done.
Qed.

(** No call removes a record. *)
Lemma exec_length fr c :
  (initOnce fr = false → records fr = []) →
  initOnce (fst (exec Rabin fr c)) = true ∧
  (length (records fr) ≤ length (records (fst (exec Rabin fr c))))%nat.
Proof.
  intros Hwf. pose proof (records_init fr Hwf) as Hr.
  pose proof (init_initOnce fr) as Hi.
  destruct c as [subject schema| id | subject version | id].
  - simpl.
    destruct (CreateSchema_cases fr subject schema)
      as [(id & ss0 & Hl & Hf & HC)|[(id & Hl & Hf & HC)|(Hl & HC)]];
      simpl in HC; rewrite HC; simpl.
    + by rewrite Hr.
    + split; [done|]. unfold records at 2. simpl. fold (records (init fr)).
      rewrite length_app, Hr. lia.
    + split; [done|]. unfold records at 2. simpl. fold (records (init fr)).
      rewrite length_app, Hr. lia.
  - rewrite exec_lookup by done. by rewrite Hr.
  - rewrite exec_lookup by done. by rewrite Hr.
  - rewrite exec_lookup by done. by rewrite Hr.
Qed.

Lemma run_length fr cs :
  (initOnce fr = false → records fr = []) →
  (length (records fr) ≤ length (records (fst (run Rabin fr cs))))%nat.
Proof.
  revert fr. induction cs as [|c cs IH]; intros fr Hwf; simpl; [done|].
  destruct (exec_length fr c Hwf) as [Hi Hlen].
  destruct (exec Rabin fr c) as [fr1 x] eqn:He. simpl in *.
  specialize (IH fr1). destruct (run Rabin fr1 cs) as [fr2 xs] eqn:Hrun.
  simpl in *. etrans; [exact Hlen|]. apply IH. by rewrite Hi.
Qed.

Lemma fitsInt_le fr fr' :
  (length (records fr) ≤ length (records fr'))%nat → fitsInt fr' → fitsInt fr.
Proof. unfold fitsInt. rewrite !len_records. lia. Qed.

(** One call on a store that satisfies the invariant. *)
Lemma exec_step fr c fr' x :
  Inv Rabin fr → exec Rabin fr c = (fr', x) → fitsInt fr' →
  Inv Rabin fr' ∧
  (∀ fp id, fingerprintIDCache fr !! fp = Some id →
            fingerprintIDCache fr' !! fp = Some id) ∧
  records fr `prefix_of` records fr'.
Proof.
  intros HI He Hfit.
  assert (Hcase : (∃ subject schema, c = CallCreateSchema subject schema)
                  ∨ ∀ subject schema, c ≠ CallCreateSchema subject schema).
  { destruct c; [left; eauto|right; done..]. }
  destruct Hcase as [(subject & schema & ->)|Hn].
  - simpl in He.
    destruct (CreateSchema Rabin fr subject schema) as [fr1 ss] eqn:HC.
    injection He as -> <-.
    destruct (CreateSchema_step _ _ _ _ _ HI HC Hfit)
      as (HI' & _ & _ & _ & Hmono & [(Hr & _)|(Hr & _)]).
    + split_and!; try done. by rewrite Hr.
    + split_and!; try done. rewrite Hr. by apply prefix_app_r.
  - assert (Hfr : fr' = init fr).
    { rewrite <- (exec_lookup fr c); [by rewrite He|done]. }
    subst fr'. destruct (init_view _ HI) as (Hr & Hc & _).
    split_and!.
    + by apply Inv_init.
    + intros fp id. by rewrite Hc.
    + by rewrite Hr.
Qed.

Lemma Inv_wf fr : Inv Rabin fr → initOnce fr = false → records fr = [].
Proof. intros HI E. by destruct (inv_uninit _ _ HI E). Qed.

(** The invariant holds along every sequence of calls whose final store
    fits, and the store only grows. *)
Lemma run_step fr cs :
  Inv Rabin fr → fitsInt (fst (run Rabin fr cs)) →
  Inv Rabin (fst (run Rabin fr cs)) ∧
  (∀ fp id, fingerprintIDCache fr !! fp = Some id →
            fingerprintIDCache (fst (run Rabin fr cs)) !! fp = Some id) ∧
  records fr `prefix_of` records (fst (run Rabin fr cs)).
Proof.
  revert fr. induction cs as [|c cs IH]; intros fr HI Hfit; simpl in *; [done|].
  destruct (exec Rabin fr c) as [fr1 x] eqn:He.
  pose proof (exec_length fr c (Inv_wf _ HI)) as [Hi1 _]. rewrite He in Hi1.
  simpl in Hi1.
  pose proof (run_length fr1 cs) as Hlen.
  specialize (IH fr1).
  destruct (run Rabin fr1 cs) as [fr2 xs] eqn:Hrun. simpl in *.
  assert (Hfit1 : fitsInt fr1).
  { eapply fitsInt_le; [|exact Hfit]. apply Hlen. by rewrite Hi1. }
  destruct (exec_step _ _ _ _ HI He Hfit1) as (HI1 & Hm1 & Hp1).
  destruct (IH HI1 Hfit) as (HI2 & Hm2 & Hp2).
  split_and!; [done| |by etrans]. intros fp id Hl. by apply Hm2, Hm1.
Qed.

Lemma run_results_length fr cs : length (snd (run Rabin fr cs)) = length cs.
Proof.
  revert fr. induction cs as [|c cs IH]; intros fr; simpl; [done|].
  destruct (exec Rabin fr c) as [fr1 x]. specialize (IH fr1).
  destruct (run Rabin fr1 cs) as [fr2 xs]. simpl in *. by rewrite IH.
Qed.

Ltac run_cons fr c cs fr1 x fr2 xs He Hrun Hfit1 HI :=
  destruct (exec Rabin fr c) as [fr1 x] eqn:He;
  let Hi1 := fresh "Hi1" in
  let Hlen := fresh "Hlen" in
  pose proof (exec_length fr c (Inv_wf _ HI)) as [Hi1 _];
  rewrite He in Hi1; simpl in Hi1;
  pose proof (run_length fr1 cs) as Hlen;
  destruct (run Rabin fr1 cs) as [fr2 xs] eqn:Hrun; simpl in *;
  assert (Hfit1 : fitsInt fr1)
    by (eapply fitsInt_le; [apply Hlen; by rewrite Hi1|done]).

(** What the [i]-th call returned, when it was a [CreateSchema]: a record
    the final store holds, under the id the cache gives the fingerprint. *)
Lemma run_created fr cs i subject schema x :
  Inv Rabin fr → fitsInt (fst (run Rabin fr cs)) →
  cs !! i = Some (CallCreateSchema subject schema) →
  snd (run Rabin fr cs) !! i = Some x →
  ∃ ss, x = Created ss ∧ ss ∈ records (fst (run Rabin fr cs)) ∧
        Subject ss = subject ∧
        fingerprintIDCache (fst (run Rabin fr cs)) !! Rabin (Schema_Schema schema)
          = Some (ID ss) ∧
        Rabin (text ss) = Rabin (Schema_Schema schema).
Proof.
  revert fr i. induction cs as [|c cs IH]; intros fr i HI Hfit Hc Hx; [done|].
  simpl in Hfit, Hx |- *.
  run_cons fr c cs fr1 x1 fr2 xs He Hrun Hfit1 HI.
  destruct (exec_step _ _ _ _ HI He Hfit1) as (HI1 & _ & _).
  pose proof (run_step fr1 cs HI1) as Hst. rewrite Hrun in Hst. simpl in Hst.
  destruct (Hst Hfit) as (HI2 & Hmono & Hpre).
  destruct i as [|i].
  - injection Hc as ->. injection Hx as <-. simpl in He.
    destruct (CreateSchema Rabin fr subject schema) as [fr1' ss] eqn:HC.
    injection He as -> <-.
    destruct (CreateSchema_step _ _ _ _ _ HI HC Hfit1)
      as (_ & _ & Hsub & Hl & _ & Hcase).
    exists ss. split_and!; try done.
    + eapply elem_of_prefix; [|exact Hpre].
      destruct Hcase as [(Hr & Hin & _)|(Hr & _)]; rewrite Hr; [done|].
      apply elem_of_app. right. by apply list_elem_of_singleton.
    + by apply Hmono.
    + destruct Hcase as [(_ & _ & Hfp)|(_ & Hs & _)]; [done|].
      unfold text. by rewrite Hs.
  - specialize (IH fr1 i HI1). rewrite Hrun in IH. simpl in IH.
    by apply IH.
Qed.

(** Every record of the final store was there at the start or holds a
    text one of the calls registered. *)
Lemma run_texts fr cs ss :
  Inv Rabin fr → fitsInt (fst (run Rabin fr cs)) →
  ss ∈ records (fst (run Rabin fr cs)) →
  ss ∈ records fr ∨ text ss ∈ registered cs.
Proof.
  revert fr. induction cs as [|c cs IH]; intros fr HI Hfit Hin; [by left|].
  simpl in Hfit, Hin.
  run_cons fr c cs fr1 x1 fr2 xs He Hrun Hfit1 HI.
  destruct (exec_step _ _ _ _ HI He Hfit1) as (HI1 & _ & _).
  specialize (IH fr1 HI1). rewrite Hrun in IH. simpl in IH.
  destruct (IH Hfit Hin) as [Hin1|Hreg].
  - destruct c as [subject schema| id | subject version | id].
    + simpl in He.
      destruct (CreateSchema Rabin fr subject schema) as [fr1' ss1] eqn:HC.
      injection He as -> <-.
      destruct (CreateSchema_step _ _ _ _ _ HI HC Hfit1)
        as (_ & _ & _ & _ & _ & [(Hr & _)|(Hr & Hs & _)]).
      * left. by rewrite <- Hr.
      * rewrite Hr in Hin1. apply elem_of_app in Hin1 as [Hin1|Hin1]; [by left|].
        apply list_elem_of_singleton in Hin1 as ->. right.
        unfold registered. simpl. unfold text. rewrite Hs. apply list_elem_of_here.
    + left. pose proof (exec_lookup fr (CallSchemaByID id)) as Hk.
      rewrite He in Hk. simpl in Hk. rewrite Hk in Hin1 by done.
      by destruct (init_view _ HI) as (<- & _).
    + left. pose proof (exec_lookup fr (CallSchemaBySubjectVersion subject version)) as Hk.
      rewrite He in Hk. simpl in Hk. rewrite Hk in Hin1 by done.
      by destruct (init_view _ HI) as (<- & _).
    + left. pose proof (exec_lookup fr (CallSubjectVersionsByID id)) as Hk.
      rewrite He in Hk. simpl in Hk. rewrite Hk in Hin1 by done.
      by destruct (init_view _ HI) as (<- & _).
  - right. unfold registered in *. simpl.
    destruct c; simpl; [by apply list_elem_of_further|done..].
Qed.

Lemma run_app fr cs1 cs2 :
  fst (run Rabin fr (cs1 ++ cs2)) = fst (run Rabin (fst (run Rabin fr cs1)) cs2).
Proof.
  revert fr. induction cs1 as [|c cs1 IH]; intros fr; simpl; [done|].
  destruct (exec Rabin fr c) as [fr1 x]. specialize (IH fr1).
  destruct (run Rabin fr1 (cs1 ++ cs2)) as [fr2 xs].
  destruct (run Rabin fr1 cs1) as [fr3 xs3]. simpl in *.
  destruct (run Rabin fr3 cs2) as [fr4 xs4]. simpl in *. done.
Qed.

Lemma run_initOnce fr cs :
  cs ≠ [] → (initOnce fr = false → records fr = []) →
  initOnce (fst (run Rabin fr cs)) = true.
Proof.
  revert fr. induction cs as [|c cs IH]; intros fr Hne Hwf; [done|]. simpl.
  destruct (exec_length fr c Hwf) as [Hi _].
  destruct (exec Rabin fr c) as [fr1 x]. simpl in Hi.
  specialize (IH fr1).
  destruct cs as [|c' cs]; [done|].
  destruct (run Rabin fr1 (c' :: cs)) as [fr2 xs]. simpl in *.
  apply IH; [done|]. by rewrite Hi.
Qed.

(** The fingerprints of a subject's records follow its registrations, as
    long as these do not repeat a fingerprint. *)
Lemma run_count fr cs subject :
  Inv Rabin fr → fitsInt (fst (run Rabin fr cs)) →
  NoDup (((λ ss, Rabin (text ss)) <$> recordsOf subject (records fr))
         ++ (Rabin <$> registeredFor subject cs)) →
  (λ ss, Rabin (text ss)) <$> recordsOf subject (records (fst (run Rabin fr cs)))
  = ((λ ss, Rabin (text ss)) <$> recordsOf subject (records fr))
    ++ (Rabin <$> registeredFor subject cs).
Proof.
  revert fr. induction cs as [|c cs IH]; intros fr HI Hfit Hnd.
  { simpl. by rewrite app_nil_r. }
  simpl in Hfit |- *.
  run_cons fr c cs fr1 x1 fr2 xs He Hrun Hfit1 HI.
  destruct (exec_step _ _ _ _ HI He Hfit1) as (HI1 & _ & _).
  specialize (IH fr1 HI1). rewrite Hrun in IH. simpl in IH.
  assert (Hsame : recordsOf subject (records fr1) = recordsOf subject (records fr) →
            registeredFor subject (c :: cs) = registeredFor subject cs →
            (λ ss, Rabin (text ss)) <$> recordsOf subject (records fr2)
            = ((λ ss, Rabin (text ss)) <$> recordsOf subject (records fr))
              ++ (Rabin <$> registeredFor subject (c :: cs))).
  { intros Hr Hreg. rewrite Hreg in Hnd |- *. rewrite <- Hr in Hnd |- *.
    by apply IH. }
  assert (Hlook : (∀ subject' schema, c ≠ CallCreateSchema subject' schema) →
            records fr1 = records fr).
  { intros Hc. pose proof (exec_lookup fr c Hc) as Hk. rewrite He in Hk.
    simpl in Hk. rewrite Hk. by destruct (init_view _ HI) as (-> & _). }
  destruct c as [subject' schema| id | subject' version | id];
    [|apply Hsame; [by rewrite Hlook|done]..].
  simpl in He.
  destruct (CreateSchema Rabin fr subject' schema) as [fr1' ss] eqn:HC.
  injection He as -> <-.
  destruct (CreateSchema_step _ _ _ _ _ HI HC Hfit1)
    as (_ & _ & Hsub & _ & _ & Hcase).
  destruct (decide (subject' = subject)) as [->|Hne].
  - assert (Hreg : registeredFor subject (CallCreateSchema subject schema :: cs)
                   = Schema_Schema schema :: registeredFor subject cs).
    { unfold registeredFor. simpl. by rewrite decide_True. }
    rewrite Hreg in Hnd |- *. rewrite fmap_cons in Hnd |- *.
    destruct Hcase as [(Hr & Hin & Hfp)|(Hr & Hs & _)].
    + exfalso. apply NoDup_app in Hnd as (_ & Hdis & _).
      apply (Hdis (Rabin (Schema_Schema schema))).
      * rewrite <- Hfp. apply list_elem_of_fmap. exists ss. split; [done|].
        unfold recordsOf. by apply list_elem_of_filter.
      * apply list_elem_of_here.
    + assert (Hrec1 : (λ ss, Rabin (text ss)) <$> recordsOf subject (records fr1)
                = ((λ ss, Rabin (text ss)) <$> recordsOf subject (records fr))
                  ++ [Rabin (Schema_Schema schema)]).
      { rewrite Hr, recordsOf_snoc, decide_True by done.
        rewrite fmap_app. simpl. unfold text. by rewrite Hs. }
      rewrite IH; [|done|]; rewrite Hrec1, <- app_assoc; done.
  - apply Hsame.
    + destruct Hcase as [(Hr & _)|(Hr & _ & _)]; rewrite Hr; [done|].
      rewrite recordsOf_snoc, decide_False, app_nil_r; [done|]. by rewrite Hsub.
    + unfold registeredFor. simpl. by rewrite decide_False.
Qed.

(** ** Registration *)

Lemma nextVersion_first fr subject :
  recordsOf subject (records fr) = [] → nextVersion fr subject = 1.
Proof.
  intros Hnone. unfold nextVersion, len. rewrite findBySubject_elems, Hnone.
  reflexivity.
Qed.

Lemma findBySubjectID_none fr subject id :
  recordsOf subject (records fr) = [] →
  snd (findBySubjectID fr subject id) = false.
Proof.
  intros Hnone. destruct (findBySubjectID fr subject id) as [ss [|]] eqn:Hf; [|done].
  apply findBySubjectID_true in Hf as (i & Hi & Hs & _).
  apply list_elem_of_lookup_2 in Hi.
  assert (Hin : ss ∈ recordsOf subject (records fr))
    by (unfold recordsOf; by apply list_elem_of_filter).
  rewrite Hnone in Hin. by apply elem_of_nil in Hin.
Qed.

(** [CreateSchema] on a subject that holds the id of the fingerprint. *)
Lemma CreateSchema_existing fr subject schema id :
  fingerprintIDCache (init fr) !! Rabin (Schema_Schema schema) = Some id →
  (∃ ss0, ss0 ∈ records (init fr) ∧ Subject ss0 = subject ∧ ID ss0 = id) →
  ∃ ss i,
    CreateSchema Rabin fr subject schema = (init fr, ss) ∧
    records (init fr) !! i = Some ss ∧ Subject ss = subject ∧ ID ss = id ∧
    (∀ j ss', records (init fr) !! j = Some ss' → (j < i)%nat →
              ¬ (Subject ss' = subject ∧ ID ss' = id)).
Proof.
  intros Hl (ss0 & Hin & Hs & Hid).
  destruct (CreateSchema_cases fr subject schema)
    as [(id' & ss & Hl' & Hf & HC)|[(id' & Hl' & Hf & HC)|(Hl' & HC)]].
  - rewrite Hl in Hl'. injection Hl' as <-.
    apply findBySubjectID_true in Hf as (i & Hi & Hsub & Hidd & Hfirst).
    exists ss, i. by split_and!.
  - rewrite Hl in Hl'. injection Hl' as <-.
    exfalso. by apply (findBySubjectID_false _ _ _ Hf ss0).
  - congruence.
Qed.

(** Registering a text again under the same subject returns the record of
    the first registration and leaves the store as it is. *)
Lemma CreateSchema_again fr subject schema schema' fr1 r :
  Inv Rabin fr →
  CreateSchema Rabin fr subject schema = (fr1, r) →
  fitsInt fr1 →
  Schema_Schema schema' = Schema_Schema schema →
  CreateSchema Rabin fr1 subject schema' = (fr1, r).
Proof.
  intros HI HC Hfit Htext.
  destruct (CreateSchema_step _ _ _ _ _ HI HC Hfit)
    as (HI1 & Hi1 & Hsub & Hl & _ & Hcase).
  assert (Hin : r ∈ records fr1).
  { destruct Hcase as [(Hr & Hin & _)|(Hr & _)]; rewrite Hr; [done|].
    apply elem_of_app. right. by apply list_elem_of_singleton. }
  pose proof (init_done _ Hi1) as Hinit.
  destruct (CreateSchema_existing fr1 subject schema' (ID r))
    as (ss & i & HC' & Hi & Hs & Hid & _).
  { by rewrite Hinit, Htext. }
  { exists r. by rewrite Hinit. }
  rewrite Hinit in HC', Hi. rewrite HC'. f_equal.
  apply list_elem_of_lookup_1 in Hin as [k Hk].
  assert (i = k) as ->.
  { eapply (inv_subject_id _ _ HI1); [exact Hi|exact Hk|congruence..]. }
  congruence.
Qed.

(** C1. Idempotent re-registration. Take any store, as the call finds it
    once its lazy initialisation has run ([init fr], which is [fr] itself
    for an initialised store). If the cache gives the fingerprint of the
    schema text the id [id], and a record of [subject] with that id exists,
    then [CreateSchema] returns an existing record of that subject and id
    (the first one in insertion order) and leaves the store as it found
    it: the subject's records, and so their number, are the same. *)
Theorem idempotent_reregistration fr subject schema id :
  fingerprintIDCache (init fr) !! Rabin (Schema_Schema schema) = Some id →
  (∃ ss0, ss0 ∈ records (init fr) ∧ Subject ss0 = subject ∧ ID ss0 = id) →
  ∃ ss i,
    CreateSchema Rabin fr subject schema = (init fr, ss) ∧
    records (init fr) !! i = Some ss ∧ Subject ss = subject ∧ ID ss = id ∧
    (∀ j ss', records (init fr) !! j = Some ss' → (j < i)%nat →
              ¬ (Subject ss' = subject ∧ ID ss' = id)) ∧
    findBySubject (fst (CreateSchema Rabin fr subject schema)) subject
      = findBySubject (init fr) subject ∧
    length (records (fst (CreateSchema Rabin fr subject schema)))
      = length (records (init fr)).
Proof.
  intros Hl Hex.
  destruct (CreateSchema_existing fr subject schema id Hl Hex)
    as (ss & i & HC & Hi & Hs & Hid & Hfirst).
  exists ss, i. rewrite HC. by split_and!.
Qed.

(** C2. Cross-subject id reuse. Two distinct subjects [A] and [B] have no
    record yet; the same schema text is registered under [A] and then
    under [B]. Both records carry the same id, and each carries version 1
    of its own subject. *)
Theorem cross_subject_id_reuse fr A B schemaA schemaB :
  A ≠ B →
  Schema_Schema schemaA = Schema_Schema schemaB →
  recordsOf A (records (init fr)) = [] →
  recordsOf B (records (init fr)) = [] →
  let rA := snd (CreateSchema Rabin fr A schemaA) in
  let rB := snd (CreateSchema Rabin (fst (CreateSchema Rabin fr A schemaA)) B schemaB) in
  ID rA = ID rB ∧
  Subject rA = A ∧ Version rA = 1 ∧
  Subject rB = B ∧ Version rB = 1.
Proof.
  intros Hne Htext HA HB rA rB. subst rA rB.
  pose proof (findBySubjectID_none (init fr) A) as HnA.
  assert (Hsecond : ∀ fr1 id,
            initOnce fr1 = true →
            records fr1 = records (init fr)
                          ++ [mkSubjectSchema A (nextVersion (init fr) A) id schemaA] →
            fingerprintIDCache fr1 !! Rabin (Schema_Schema schemaA) = Some id →
            let rB := snd (CreateSchema Rabin fr1 B schemaB) in
            ID rB = id ∧ Subject rB = B ∧ Version rB = 1).
  { intros fr1 id Hi1 Hr1 Hc1.
    assert (HB1 : recordsOf B (records fr1) = []).
    { rewrite Hr1, recordsOf_snoc, HB. simpl. by rewrite decide_False. }
    destruct (CreateSchema_cases fr1 B schemaB)
      as [(id' & ss & Hl' & Hf & HC)|[(id' & Hl' & Hf & HC)|(Hl' & HC)]];
      rewrite (init_done _ Hi1) in *.
    - pose proof (findBySubjectID_none fr1 B id' HB1) as Hn.
      rewrite Hf in Hn. done.
    - simpl in HC. rewrite HC. simpl. rewrite <- Htext, Hc1 in Hl'.
      injection Hl' as <-. by rewrite nextVersion_first.
    - rewrite <- Htext in Hl'. congruence. }
  destruct (CreateSchema_cases fr A schemaA)
    as [(id & ss & Hl & Hf & HC)|[(id & Hl & Hf & HC)|(Hl & HC)]].
  - specialize (HnA id HA). rewrite Hf in HnA. done.
  - simpl in HC. rewrite HC. simpl.
    match goal with
    | |- context [CreateSchema Rabin ?f B schemaB] =>
        destruct (Hsecond f id eq_refl eq_refl Hl) as (H1 & H2 & H3)
    end.
    rewrite (nextVersion_first _ _ HA) in *. by split_and!.
  - simpl in HC. rewrite HC. simpl.
    match goal with
    | |- context [CreateSchema Rabin ?f B schemaB] =>
        destruct (Hsecond f (GoInt.add (idSequence (init fr)) 1) eq_refl eq_refl
                    (lookup_insert_eq _ _ _)) as (H1 & H2 & H3)
    end.
    rewrite (nextVersion_first _ _ HA) in *. by split_and!.
Qed.

(** ** Lookups *)

Lemma findBySubjectVersion_record fr r :
  Inv Rabin fr → r ∈ records fr →
  findBySubjectVersion fr (Subject r) (Version r) = (r, true).
Proof.
  intros HI Hin. unfold findBySubjectVersion.
  rewrite findBySubjectVersion_loop_find. fold (records fr).
  destruct (list_find _ _) as [[i x]|] eqn:Hf.
  - apply list_find_Some in Hf as (Hi & [Hs Hv] & _).
    apply list_elem_of_lookup_1 in Hin as [k Hk].
    pose proof (inv_subject_version _ _ HI _ _ _ _ Hi Hk Hs Hv) as ->.
    rewrite Hk in Hi. by injection Hi as ->.
  - apply list_find_None in Hf. rewrite Forall_forall in Hf.
    by destruct (Hf r Hin).
Qed.

Lemma findOneByID_found fr id i ss :
  records fr !! i = Some ss → ID ss = id →
  (∀ j ss', records fr !! j = Some ss' → (j < i)%nat → ID ss' ≠ id) →
  findOneByID fr id = (SubjectSchema_Schema ss, true).
Proof.
  intros Hi Hid Hfirst. unfold findOneByID. rewrite findOneByID_loop_find.
  fold (records fr).
  assert (Hf : list_find (λ ss, ID ss = id) (records fr) = Some (i, ss))
    by (apply list_find_Some; eauto).
  by rewrite Hf.
Qed.

Lemma findOneByID_some fr id :
  (∃ ss, ss ∈ records fr ∧ ID ss = id) →
  ∃ i ss, records fr !! i = Some ss ∧ ID ss = id ∧
          (∀ j ss', records fr !! j = Some ss' → (j < i)%nat → ID ss' ≠ id) ∧
          findOneByID fr id = (SubjectSchema_Schema ss, true).
Proof.
  intros (ss0 & Hin & Hid).
  destruct (list_find (λ ss, ID ss = id) (records fr)) as [[i ss]|] eqn:Hf.
  - apply list_find_Some in Hf as (Hi & Hidd & Hfirst).
    exists i, ss. split_and!; try done. by eapply findOneByID_found.
  - apply list_find_None in Hf. rewrite Forall_forall in Hf.
    by destruct (Hf ss0 Hin).
Qed.

Lemma findOneByID_none fr id :
  (∀ ss, ss ∈ records fr → ID ss ≠ id) →
  findOneByID fr id = (Schema_zero, false).
Proof.
  intros Hnone. unfold findOneByID. rewrite findOneByID_loop_find.
  fold (records fr).
  destruct (list_find _ _) as [[i ss]|] eqn:Hf; [|done].
  apply list_find_Some in Hf as (Hi & Hid & _).
  apply list_elem_of_lookup_2 in Hi. by destruct (Hnone ss Hi).
Qed.

Lemma findBySubjectVersion_none fr subject version :
  (∀ ss, ss ∈ records fr → Subject ss = subject → Version ss ≠ version) →
  findBySubjectVersion fr subject version = (SubjectSchema_zero, false).
Proof.
  intros Hnone. unfold findBySubjectVersion.
  rewrite findBySubjectVersion_loop_find. fold (records fr).
  destruct (list_find _ _) as [[i ss]|] eqn:Hf; [|done].
  apply list_find_Some in Hf as (Hi & [Hs Hv] & _).
  apply list_elem_of_lookup_2 in Hi. by destruct (Hnone ss Hi Hs).
Qed.

Lemma findAllByID_elems fr id :
  elems (findAllByID fr id) = recordsWithID id (records fr).
Proof. unfold findAllByID. by rewrite findAllByID_loop_elems. Qed.

(** The result is the nil slice when nothing matches, and a non-nil slice
    of the matches otherwise. *)
Lemma findAllByID_cases fr id :
  (recordsWithID id (records fr) = [] ∧ findAllByID fr id = Nil)
  ∨ (recordsWithID id (records fr) ≠ [] ∧
     findAllByID fr id = Mk (recordsWithID id (records fr))).
Proof.
  unfold findAllByID. fold (records fr).
  destruct (recordsWithID id (records fr)) as [|a l] eqn:Hr.
  - left. split; [done|]. by apply findAllByID_loop_nil.
  - right. split; [done|].
    pose proof (findAllByID_loop_elems id (records fr) Nil) as He.
    destruct (findAllByID_loop id (records fr) Nil) as [|l'] eqn:Hl.
    + apply findAllByID_loop_nil in Hl. congruence.
    + simpl in He. congruence.
Qed.

(** C7. First match wins for the lookup by id. [SchemaByID] leaves the
    store as its lazy initialisation leaves it (an initialised store is
    left as it is, and no record is added, removed or changed). When a
    record with the id exists, the result is the schema of the first such
    record in insertion order, whatever its subject; when none exists,
    the result is the zero schema with [false]. *)
Theorem first_match_wins fr id :
  fst (SchemaByID fr id) = init fr ∧
  (initOnce fr = true → fst (SchemaByID fr id) = fr) ∧
  ((initOnce fr = false → records fr = []) →
   records (fst (SchemaByID fr id)) = records fr) ∧
  ((∃ ss, ss ∈ records (init fr) ∧ ID ss = id) →
   ∃ i ss, records (init fr) !! i = Some ss ∧ ID ss = id ∧
           (∀ j ss', records (init fr) !! j = Some ss' → (j < i)%nat →
                     ID ss' ≠ id) ∧
           snd (SchemaByID fr id) = (SubjectSchema_Schema ss, true)) ∧
  ((∀ ss, ss ∈ records (init fr) → ID ss ≠ id) →
   snd (SchemaByID fr id) = (Schema_zero, false)).
Proof.
  unfold SchemaByID. simpl. split_and!.
  - done.
  - apply init_done.
  - apply records_init.
  - apply findOneByID_some.
  - apply findOneByID_none.
Qed.

(** ** Stores reached from the zero value *)

Lemma run_wf fr cs :
  (initOnce fr = false → records fr = []) →
  initOnce (fst (run Rabin fr cs)) = false → records (fst (run Rabin fr cs)) = [].
Proof.
  intros Hwf. destruct cs as [|c cs]; [done|].
  rewrite run_initOnce; done.
Qed.

Lemma registered_lookup cs i subject schema :
  cs !! i = Some (CallCreateSchema subject schema) →
  Schema_Schema schema ∈ registered cs.
Proof.
  intros Hi. unfold registered. apply list_elem_of_omap.
  exists (CallCreateSchema subject schema). split; [|done].
  by eapply list_elem_of_lookup_2.
Qed.

Lemma collisionFree_inj l a b :
  collisionFree Rabin l → a ∈ l → b ∈ l → Rabin a = Rabin b → a = b.
Proof.
  unfold collisionFree. rewrite Forall_forall. intros H Ha Hb.
  specialize (H a Ha). rewrite Forall_forall in H. by apply H.
Qed.

Lemma recordsOf_prefix subject l1 l2 :
  l1 `prefix_of` l2 → recordsOf subject l1 `prefix_of` recordsOf subject l2.
Proof.
  intros [k ->]. unfold recordsOf. rewrite filter_app. by apply prefix_app_r.
Qed.

(** The store a sequence of calls reaches from the zero value, with the
    store a longer sequence reaches. *)
Lemma run_zero_Inv cs cs' :
  fitsInt (fst (run Rabin fakeRegistry_zero (cs ++ cs'))) →
  fitsInt (fst (run Rabin fakeRegistry_zero cs)) ∧
  Inv Rabin (fst (run Rabin fakeRegistry_zero cs)) ∧
  Inv Rabin (fst (run Rabin fakeRegistry_zero (cs ++ cs'))) ∧
  records (fst (run Rabin fakeRegistry_zero cs))
    `prefix_of` records (fst (run Rabin fakeRegistry_zero (cs ++ cs'))).
Proof.
  intros Hfit'.
  assert (Hwf0 : initOnce fakeRegistry_zero = false → records fakeRegistry_zero = [])
    by done.
  pose proof (run_wf _ cs Hwf0) as Hwf.
  assert (Hfit : fitsInt (fst (run Rabin fakeRegistry_zero cs))).
  { eapply fitsInt_le; [|exact Hfit']. rewrite run_app. by apply run_length. }
  destruct (run_step _ cs Inv_zero Hfit) as (HI & _ & _).
  destruct (run_step _ (cs ++ cs') Inv_zero Hfit') as (HI' & _ & _).
  split_and!; try done.
  rewrite run_app in Hfit' |- *.
  by destruct (run_step _ cs' HI Hfit') as (_ & _ & Hpre).
Qed.

(** C3. Per-subject version monotonicity. Any sequence of calls [cs] on a
    new registry, in which the registrations for [subject] carry pairwise
    distinct texts (on which the fingerprint does not collide), however
    interleaved with other calls, leaves for the subject the versions
    [1, 2, ..., N] in insertion order, where [N] is the number of these
    registrations. Whatever calls [cs'] follow, the subject's records stay
    in place at the front of its list, and the versions of the list remain
    [1, 2, ...] without gap or repeat. This is for stores whose slice
    fits a Go [int]. *)
Theorem version_monotonicity cs cs' subject :
  fitsInt (fst (run Rabin fakeRegistry_zero (cs ++ cs'))) →
  NoDup (registeredFor subject cs) →
  collisionFree Rabin (registeredFor subject cs) →
  Version <$> elems (findBySubject (fst (run Rabin fakeRegistry_zero cs)) subject)
    = versionsUpTo (length (registeredFor subject cs)) ∧
  elems (findBySubject (fst (run Rabin fakeRegistry_zero cs)) subject)
    `prefix_of`
    elems (findBySubject (fst (run Rabin fakeRegistry_zero (cs ++ cs'))) subject) ∧
  Version <$> elems (findBySubject (fst (run Rabin fakeRegistry_zero (cs ++ cs'))) subject)
    = versionsUpTo
        (length (elems (findBySubject (fst (run Rabin fakeRegistry_zero (cs ++ cs')))
                          subject))).
Proof.
  intros Hfit' Hnd Hcf.
  destruct (run_zero_Inv cs cs' Hfit') as (Hfit & HI & HI' & Hpre).
  rewrite !findBySubject_elems. split_and!.
  - rewrite (inv_versions _ _ HI). f_equal.
    pose proof (run_count fakeRegistry_zero cs subject Inv_zero Hfit) as Hcount.
    simpl in Hcount.
    rewrite <- (length_fmap (λ ss, Rabin (text ss))), Hcount, length_fmap; [done|].
    apply NoDup_fmap_2_strong; [|done].
    intros a b Ha Hb. by apply (collisionFree_inj _ _ _ Hcf).
  - by apply recordsOf_prefix.
  - apply (inv_versions _ _ HI').
Qed.

(** C4. Id uniqueness and stability. In any sequence of calls on a new
    registry on whose registered texts the fingerprint does not collide,
    two [CreateSchema] calls return the same id exactly when they carry
    the same schema text. The cache of the final store (so of the store
    at any later time) still maps the fingerprint of a registered text to
    the id its registration returned, and every record with that id holds
    that text. This is for stores whose slice fits a Go [int]. *)
Theorem id_uniqueness cs i j s1 c1 s2 c2 r1 r2 :
  fitsInt (fst (run Rabin fakeRegistry_zero cs)) →
  collisionFree Rabin (registered cs) →
  cs !! i = Some (CallCreateSchema s1 c1) →
  cs !! j = Some (CallCreateSchema s2 c2) →
  snd (run Rabin fakeRegistry_zero cs) !! i = Some (Created r1) →
  snd (run Rabin fakeRegistry_zero cs) !! j = Some (Created r2) →
  (Schema_Schema c1 ≠ Schema_Schema c2 → ID r1 ≠ ID r2) ∧
  (Schema_Schema c1 = Schema_Schema c2 → ID r1 = ID r2) ∧
  fingerprintIDCache (fst (run Rabin fakeRegistry_zero cs)) !! Rabin (Schema_Schema c1)
    = Some (ID r1) ∧
  (∀ ss, ss ∈ records (fst (run Rabin fakeRegistry_zero cs)) →
         ID ss = ID r1 → text ss = Schema_Schema c1).
Proof.
  intros Hfit Hcf Hi Hj Hxi Hxj.
  destruct (run_step _ cs Inv_zero Hfit) as (HI & _ & _).
  destruct (run_created _ _ _ _ _ _ Inv_zero Hfit Hi Hxi)
    as (ss1 & [= <-] & Hin1 & _ & Hc1 & _).
  destruct (run_created _ _ _ _ _ _ Inv_zero Hfit Hj Hxj)
    as (ss2 & [= <-] & Hin2 & _ & Hc2 & _).
  pose proof (registered_lookup _ _ _ _ Hi) as Hreg1.
  pose proof (registered_lookup _ _ _ _ Hj) as Hreg2.
  split_and!.
  - intros Hne Hid. apply Hne.
    apply (collisionFree_inj _ _ _ Hcf Hreg1 Hreg2).
    rewrite <- Hid in Hc2. by eapply (inv_cache_inj _ _ HI).
  - intros Heq. rewrite Heq in Hc1. congruence.
  - done.
  - intros ss Hin Hid.
    destruct (run_texts _ _ _ Inv_zero Hfit Hin) as [Hz|Hreg].
    { by apply elem_of_nil in Hz. }
    apply (collisionFree_inj _ _ _ Hcf Hreg Hreg1).
    pose proof (inv_records _ _ HI _ Hin) as Hrec. rewrite Hid in Hrec.
    by eapply (inv_cache_inj _ _ HI).
Qed.

(** C5. Lookup round-trip. Let [r] be the record a [CreateSchema] call
    returned in a sequence of calls on a new registry. On the store the
    sequence ends in (right after the call, or after any further calls),
    [SchemaBySubjectVersion] on the subject and version of [r] returns
    [r] itself, and [SchemaByID] on the id of [r] returns a schema with
    the fingerprint of the text of [r], so with the text of [r] itself
    when the fingerprint does not collide on the registered texts;
    neither lookup changes the store. This is for stores whose slice
    fits a Go [int]. *)
Theorem lookup_round_trip cs i subject schema r :
  fitsInt (fst (run Rabin fakeRegistry_zero cs)) →
  cs !! i = Some (CallCreateSchema subject schema) →
  snd (run Rabin fakeRegistry_zero cs) !! i = Some (Created r) →
  SchemaBySubjectVersion (fst (run Rabin fakeRegistry_zero cs)) (Subject r) (Version r)
    = (fst (run Rabin fakeRegistry_zero cs), (r, true)) ∧
  ∃ s, SchemaByID (fst (run Rabin fakeRegistry_zero cs)) (ID r)
         = (fst (run Rabin fakeRegistry_zero cs), (s, true)) ∧
       Rabin (Schema_Schema s) = Rabin (text r) ∧
       (collisionFree Rabin (registered cs) → Schema_Schema s = text r).
Proof.
  intros Hfit Hi Hx.
  destruct (run_step _ cs Inv_zero Hfit) as (HI & _ & _).
  destruct (run_created _ _ _ _ _ _ Inv_zero Hfit Hi Hx)
    as (ss & [= <-] & Hin & _ & _ & _).
  assert (Hinit : init (fst (run Rabin fakeRegistry_zero cs))
                  = fst (run Rabin fakeRegistry_zero cs)).
  { apply init_done, run_initOnce; [|done]. by intros ->. }
  unfold SchemaBySubjectVersion, SchemaByID. rewrite Hinit. split.
  - by rewrite findBySubjectVersion_record.
  - destruct (findOneByID_some (fst (run Rabin fakeRegistry_zero cs)) (ID r))
      as (k & ss & Hk & Hid & _ & Hfind); [by exists r|].
    exists (SubjectSchema_Schema ss). rewrite Hfind. split; [done|].
    apply list_elem_of_lookup_2 in Hk.
    assert (Hreg : ∀ a, a ∈ records (fst (run Rabin fakeRegistry_zero cs)) →
                        text a ∈ registered cs).
    { intros a Ha. destruct (run_texts _ _ _ Inv_zero Hfit Ha) as [Hz|Hreg]; [|done].
      by apply elem_of_nil in Hz. }
    assert (Hfp : Rabin (text ss) = Rabin (text r)).
    { pose proof (inv_records _ _ HI _ Hk) as Hrk. rewrite Hid in Hrk.
      pose proof (inv_records _ _ HI _ Hin) as Hrr.
      by eapply (inv_cache_inj _ _ HI). }
    split; [done|]. intros Hcf.
    by apply (collisionFree_inj _ _ _ Hcf (Hreg _ Hk) (Hreg _ Hin)).
Qed.

End StoreFacts.

(** ** Path segments *)

Lemma digitsValue_non_digit acc s c :
  c ∈ list_ascii_of_string s → isDigit c = false → digitsValue acc s = None.
Proof.
  revert acc. induction s as [|a s IH]; intros acc Hin Hc; simpl in *.
  - by apply elem_of_nil in Hin.
  - apply elem_of_cons in Hin as [<-|Hin]; [by rewrite Hc|].
    destruct (isDigit a); [by apply IH|done].
Qed.

(** A segment with a character that is neither a digit nor a sign is not
    a number for [Atoi]. *)
Lemma Atoi_non_digit tok c :
  c ∈ list_ascii_of_string tok → isDigit c = false →
  c ≠ "-"%char → c ≠ "+"%char →
  Atoi tok = inr (NumError "Atoi" tok).
Proof.
  intros Hin Hc Hminus Hplus. unfold Atoi.
  destruct tok as [|a t]; [by apply elem_of_nil in Hin|].
  assert (Hrest : (a = "-"%char ∨ a = "+"%char) → digitsValue 0 t = None).
  { intros Ha. simpl in Hin. apply elem_of_cons in Hin as [->|Hin].
    - by destruct Ha.
    - by eapply digitsValue_non_digit. }
  destruct (Ascii.eqb_spec a "-") as [->|Hn1].
  { rewrite Hrest by eauto. by destruct t. }
  destruct (Ascii.eqb_spec a "+") as [->|Hn2].
  { rewrite Hrest by eauto. by destruct t. }
  by rewrite (digitsValue_non_digit 0 (String a t) c).
Qed.

(** What [Atoi] accepts fits an [int]. *)
Lemma Atoi_inRange tok n : Atoi tok = inl n → GoInt.minInt ≤ n ≤ GoInt.maxInt.
Proof.
  unfold Atoi.
  destruct (match tok with
            | EmptyString => (false, tok)
            | String c t =>
                if Ascii.eqb c "-" then (true, t)
                else if Ascii.eqb c "+" then (false, t) else (false, tok)
            end) as [neg digits].
  destruct digits as [|a d]; [done|].
  destruct (digitsValue 0 (String a d)) as [v|]; [|done].
  destruct (GoInt.inRange _) eqn:Hr; [|done]. intros [= <-].
  unfold GoInt.inRange in Hr. apply andb_prop in Hr as [H1 H2]. lia.
Qed.

(** ** The HTTP front *)

Section ServerFacts.

Variable Rabin : string → N.
Variable Decode : string → Schema + goError.
Variable MarshalSchema : Schema → json + goError.
Variable MarshalSubjectSchema : SubjectSchema → json + goError.
Variable ErrorText : goError → string.

Local Abbreviation errorWithCode := (fakeServer_errorWithCode ErrorText).
Local Abbreviation toJSON :=
  (fakeServer_json MarshalSchema MarshalSubjectSchema ErrorText).
Local Abbreviation idsRoute :=
  (schemasIDsRoute MarshalSchema MarshalSubjectSchema ErrorText).
Local Abbreviation subjRoute :=
  (subjectsRoute Rabin Decode MarshalSchema MarshalSubjectSchema ErrorText).
Local Abbreviation serve' :=
  (serve Rabin Decode MarshalSchema MarshalSubjectSchema ErrorText).
Local Abbreviation serveAll' :=
  (serveAll Rabin Decode MarshalSchema MarshalSubjectSchema ErrorText).

Lemma errorWithCode_isError status code err :
  isError (errorWithCode status code err) status code.
Proof. by exists (ErrorText err). Qed.

Lemma toJSON_wire v :
  (∃ j, toJSON v = mkResponse 200 (JSONBody j)) ∨ isError (toJSON v) 500 50001.
Proof.
  unfold fakeServer_json.
  destruct (Marshal _ _ v) as [j|err]; [left; by exists j|right].
  apply errorWithCode_isError.
Qed.

Lemma wire_toJSON v : wireResponse (toJSON v).
Proof. destruct (toJSON_wire v) as [H|H]; unfold wireResponse; eauto 6. Qed.

Lemma wire_NotFound : wireResponse http_NotFound.
Proof. unfold wireResponse. eauto. Qed.

Lemma wire_error err : wireResponse (errorWithCode 500 50001 err).
Proof. unfold wireResponse. eauto 8 using errorWithCode_isError. Qed.

Lemma wire_subjectNotFound err : wireResponse (errorWithCode 404 40401 err).
Proof. unfold wireResponse. eauto 8 using errorWithCode_isError. Qed.

Lemma wire_schemaNotFound err : wireResponse (errorWithCode 404 40403 err).
Proof. unfold wireResponse. eauto 8 using errorWithCode_isError. Qed.

(** The two routes index the tokens within their length: no request makes
    a handler panic, and every response is one of the wire protocol. The
    store moves by one call of the registry at most. *)
Lemma serve_reply fs p r :
  ∃ fs' w, serve' fs p r = Reply fs' w ∧ wireResponse w ∧
           (fs' = fs ∨ ∃ c, fr fs' = fst (exec Rabin (fr fs) c)).
Proof.
  destruct p; simpl.
  - unfold schemasIDsRoute.
    destruct (length (Split (EscapedPath r) "/") =? 4)%nat eqn:E4.
    + apply Nat.eqb_eq in E4. unfold schemaByID.
      destruct (negb (Method r =? "GET")%string);
        [eauto 6 using wire_NotFound|].
      destruct (Split (EscapedPath r) "/" !! 3%nat) as [tok|] eqn:Ht.
      2:{ apply lookup_ge_None in Ht. lia. }
      destruct (Atoi tok) as [id|err]; [|eauto 6 using wire_error].
      unfold SchemaByID. destruct (findOneByID _ id) as [s [|]] eqn:Hf; simpl.
      * eexists _, _. split_and!; [done|apply wire_toJSON|].
        right. exists (CallSchemaByID id). simpl. unfold SchemaByID.
        by rewrite Hf.
      * eexists _, _. split_and!; [done|apply wire_schemaNotFound|].
        right. exists (CallSchemaByID id). simpl. unfold SchemaByID.
        by rewrite Hf.
    + destruct ((length (Split (EscapedPath r) "/") =? 5)%nat
                && bool_decide (Split (EscapedPath r) "/" !! 4%nat = Some "versions"))
        eqn:E5; [|eauto 6 using wire_NotFound].
      apply andb_prop in E5 as [E5 _]. apply Nat.eqb_eq in E5.
      unfold subjectVersionsByID.
      destruct (negb (Method r =? "GET")%string);
        [eauto 6 using wire_NotFound|].
      destruct (Split (EscapedPath r) "/" !! 3%nat) as [tok|] eqn:Ht.
      2:{ apply lookup_ge_None in Ht. lia. }
      destruct (Atoi tok) as [id|err]; [|eauto 6 using wire_error].
      simpl. eexists _, _. split_and!; [done|apply wire_toJSON|].
      right. by exists (CallSubjectVersionsByID id).
  - unfold subjectsRoute.
    destruct ((length (Split (EscapedPath r) "/") =? 4)%nat
              && bool_decide (Split (EscapedPath r) "/" !! 3%nat = Some "versions"))
      eqn:E4.
    + apply andb_prop in E4 as [E4 _]. apply Nat.eqb_eq in E4.
      unfold createSchema.
      destruct (negb (Method r =? "POST")%string);
        [eauto 6 using wire_NotFound|].
      destruct (Decode (Body r)) as [s|err]; [|eauto 6 using wire_error].
      destruct (Split (EscapedPath r) "/" !! 2%nat) as [subject|] eqn:Ht.
      2:{ apply lookup_ge_None in Ht. lia. }
      destruct (CreateSchema Rabin (fr fs) subject s) as [fr' ss] eqn:HC.
      eexists _, _. split_and!; [done|apply wire_toJSON|].
      right. exists (CallCreateSchema subject s). simpl. by rewrite HC.
    + destruct ((length (Split (EscapedPath r) "/") =? 5)%nat
                && bool_decide (Split (EscapedPath r) "/" !! 3%nat = Some "versions"))
        eqn:E5; [|eauto 6 using wire_NotFound].
      apply andb_prop in E5 as [E5 _]. apply Nat.eqb_eq in E5.
      unfold schemaBySubjectVersion.
      destruct (negb (Method r =? "GET")%string);
        [eauto 6 using wire_NotFound|].
      destruct (Split (EscapedPath r) "/" !! 4%nat) as [tok|] eqn:Ht.
      2:{ apply lookup_ge_None in Ht. lia. }
      destruct (Atoi tok) as [version|err]; [|eauto 6 using wire_error].
      destruct (Split (EscapedPath r) "/" !! 2%nat) as [subject|] eqn:Hs.
      2:{ apply lookup_ge_None in Hs. lia. }
      unfold SchemaBySubjectVersion.
      destruct (findBySubjectVersion _ subject version) as [ss [|]] eqn:Hf; simpl.
      * eexists _, _. split_and!; [done|apply wire_toJSON|].
        right. exists (CallSchemaBySubjectVersion subject version). simpl.
        unfold SchemaBySubjectVersion. by rewrite Hf.
      * eexists _, _. split_and!; [done|apply wire_subjectNotFound|].
        right. exists (CallSchemaBySubjectVersion subject version). simpl.
        unfold SchemaBySubjectVersion. by rewrite Hf.
Qed.

Lemma serveAll_total fs reqs : is_Some (serveAll' fs reqs).
Proof.
  revert fs. induction reqs as [|[p r] reqs IH]; intros fs; simpl; [by eexists|].
  destruct (serve_reply fs p r) as (fs' & w & -> & _). apply IH.
Qed.

Lemma run_cons_fst fr0 c cs :
  fst (run Rabin fr0 (c :: cs)) = fst (run Rabin (fst (exec Rabin fr0 c)) cs).
Proof.
  simpl. destruct (exec Rabin fr0 c) as [fr1 x]. simpl.
  by destruct (run Rabin fr1 cs).
Qed.

(** The registry of a server that answered a sequence of requests is the
    registry after a sequence of calls. *)
Lemma serveAll_run fs0 reqs fs :
  serveAll' fs0 reqs = Some fs →
  ∃ cs, fr fs = fst (run Rabin (fr fs0) cs).
Proof.
  revert fs0. induction reqs as [|[p r] reqs IH]; intros fs0; simpl.
  - intros [= <-]. by exists [].
  - destruct (serve_reply fs0 p r) as (fs' & w & -> & _ & Hmove).
    intros Hs. destruct (IH _ Hs) as [cs Hcs].
    destruct Hmove as [->|[c Hc]]; [by exists cs|].
    exists (c :: cs). by rewrite run_cons_fst, <- Hc.
Qed.

(** ** The handlers on a path of their shape *)

Lemma schemaByID_route fs r t0 t1 t2 tok :
  Method r = "GET" →
  Split (EscapedPath r) "/" = [t0; t1; t2; tok] →
  idsRoute fs r =
  match Atoi tok with
  | inr err =>
      Reply fs (errorWithCode 500 50001 (cerrors_Errorf "invalid schema ID: %w" err))
  | inl id =>
      if snd (findOneByID (init (fr fs)) id)
      then Reply (mkFakeServer (init (fr fs)))
                 (toJSON (AnySchema (fst (findOneByID (init (fr fs)) id))))
      else Reply (mkFakeServer (init (fr fs)))
                 (errorWithCode 404 40403 (cerrors_New "schema not found"))
  end.
Proof.
  intros Hm Hs. unfold schemasIDsRoute, schemaByID. rewrite Hs, Hm. simpl.
  destruct (Atoi tok) as [id|err]; [|done].
  unfold SchemaByID. by destruct (findOneByID _ id) as [s [|]].
Qed.

Lemma subjectVersionsByID_route fs r t0 t1 t2 tok :
  Method r = "GET" →
  Split (EscapedPath r) "/" = [t0; t1; t2; tok; "versions"] →
  idsRoute fs r =
  match Atoi tok with
  | inr err =>
      Reply fs (errorWithCode 500 50001 (cerrors_Errorf "invalid schema ID: %w" err))
  | inl id =>
      Reply (mkFakeServer (init (fr fs)))
            (toJSON (AnySubjectSchemas (findAllByID (init (fr fs)) id)))
  end.
Proof.
  intros Hm Hs. unfold schemasIDsRoute, subjectVersionsByID. rewrite Hs, Hm. simpl.
  by destruct (Atoi tok) as [id|err].
Qed.

Lemma schemaBySubjectVersion_route fs r t0 t1 subject tok :
  Method r = "GET" →
  Split (EscapedPath r) "/" = [t0; t1; subject; "versions"; tok] →
  subjRoute fs r =
  match Atoi tok with
  | inr err =>
      Reply fs (errorWithCode 500 50001
                  (cerrors_Errorf "invalid schema version: %w" err))
  | inl version =>
      if snd (findBySubjectVersion (init (fr fs)) subject version)
      then Reply (mkFakeServer (init (fr fs)))
                 (toJSON (AnySubjectSchema
                            (fst (findBySubjectVersion (init (fr fs)) subject version))))
      else Reply (mkFakeServer (init (fr fs)))
                 (errorWithCode 404 40401 (cerrors_New "subject not found"))
  end.
Proof.
  intros Hm Hs. unfold subjectsRoute, schemaBySubjectVersion. rewrite Hs, Hm. simpl.
  destruct (Atoi tok) as [version|err]; [|done].
  unfold SchemaBySubjectVersion.
  by destruct (findBySubjectVersion _ subject version) as [ss [|]].
Qed.

Lemma createSchema_route fs r t0 t1 subject :
  Method r = "POST" →
  Split (EscapedPath r) "/" = [t0; t1; subject; "versions"] →
  subjRoute fs r =
  match Decode (Body r) with
  | inr err => Reply fs (errorWithCode 500 50001 err)
  | inl s =>
      Reply (mkFakeServer (fst (CreateSchema Rabin (fr fs) subject s)))
            (toJSON (AnyIDMap (ID (snd (CreateSchema Rabin (fr fs) subject s)))))
  end.
Proof.
  intros Hm Hs. unfold subjectsRoute, createSchema. rewrite Hs, Hm. simpl.
  destruct (Decode (Body r)) as [s|err]; [|done].
  by destruct (CreateSchema Rabin (fr fs) subject s).
Qed.

(** ** The wire protocol *)

(** C6, as amended. [SubjectVersionsByID] returns exactly the records
    whose id is the argument, of every subject, in insertion order, and
    leaves the store as its lazy initialisation leaves it. When no record
    matches, the result is the nil slice (an empty sequence) and the
    response to [GET /schemas/ids/{id}/versions] has status 200 and the
    JSON body [null]; when records match, the body is the JSON array of
    their encodings. *)
Theorem all_versions_by_id fs r t0 t1 t2 tok id :
  Method r = "GET" →
  Split (EscapedPath r) "/" = [t0; t1; t2; tok; "versions"] →
  Atoi tok = inl id →
  fst (SubjectVersionsByID (fr fs) id) = init (fr fs) ∧
  elems (snd (SubjectVersionsByID (fr fs) id))
    = filter (λ ss, ID ss = id) (records (init (fr fs))) ∧
  (filter (λ ss, ID ss = id) (records (init (fr fs))) = [] →
   snd (SubjectVersionsByID (fr fs) id) = Nil ∧
   idsRoute fs r
     = Reply (mkFakeServer (init (fr fs))) (mkResponse 200 (JSONBody JNull))) ∧
  (filter (λ ss, ID ss = id) (records (init (fr fs))) ≠ [] →
   ∀ js,
     MarshalItems MarshalSubjectSchema
       (filter (λ ss, ID ss = id) (records (init (fr fs)))) = inl js →
     idsRoute fs r
       = Reply (mkFakeServer (init (fr fs))) (mkResponse 200 (JSONBody (JArray js)))).
Proof.
  intros Hm Hs Ha.
  rewrite (subjectVersionsByID_route fs r t0 t1 t2 tok Hm Hs), Ha.
  unfold SubjectVersionsByID. simpl. split_and!.
  - done.
  - apply findAllByID_elems.
  - intros Hnone.
    destruct (findAllByID_cases (init (fr fs)) id) as [[_ Hnil]|[Hsome _]].
    + rewrite Hnil. done.
    + by destruct Hsome.
  - intros Hsome js Hjs.
    destruct (findAllByID_cases (init (fr fs)) id) as [[Hnone _]|[_ Hmk]].
    + by destruct Hsome.
    + rewrite Hmk. unfold fakeServer_json, Marshal, recordsWithID. by rewrite Hjs.
Qed.

(** C8. Wire error mapping. No request makes a handler panic, and every
    response the two routes write is a success (status 200, a JSON body),
    the plain not-found of the transport ([http.NotFound], for a method
    or a path shape no handler takes), or an error whose body is
    [{"error_code": <int>, "message": <string>}], with status 404 and
    code 40401, status 404 and code 40403, or status 500 and code 50001.
    A lookup by subject and version that matches no record gets 404 with
    40401; a lookup by id that matches no record gets 404 with 40403; a
    version or id segment that [Atoi] rejects gets 500 with 50001, and
    so does a registration whose body does not decode. *)
Theorem wire_error_mapping :
  (∀ fs p r, ∃ fs' w, serve' fs p r = Reply fs' w ∧ wireResponse w) ∧
  (∀ fs r t0 t1 subject tok version,
     Method r = "GET" →
     Split (EscapedPath r) "/" = [t0; t1; subject; "versions"; tok] →
     Atoi tok = inl version →
     (∀ ss, ss ∈ records (init (fr fs)) → Subject ss = subject →
            Version ss ≠ version) →
     ∃ message,
       serve' fs Subjects r
       = Reply (mkFakeServer (init (fr fs)))
               (mkResponse 404 (errorBody errorCodeSubjectNotFound message))) ∧
  (∀ fs r t0 t1 t2 tok id,
     Method r = "GET" →
     Split (EscapedPath r) "/" = [t0; t1; t2; tok] →
     Atoi tok = inl id →
     (∀ ss, ss ∈ records (init (fr fs)) → ID ss ≠ id) →
     ∃ message,
       serve' fs SchemasIDs r
       = Reply (mkFakeServer (init (fr fs)))
               (mkResponse 404 (errorBody errorCodeSchemaNotFound message))) ∧
  (∀ fs r t0 t1 subject tok err,
     Method r = "GET" →
     Split (EscapedPath r) "/" = [t0; t1; subject; "versions"; tok] →
     Atoi tok = inr err →
     ∃ message,
       serve' fs Subjects r = Reply fs (mkResponse 500 (errorBody 50001 message))) ∧
  (∀ fs r t0 t1 t2 tok err,
     Method r = "GET" →
     Split (EscapedPath r) "/" = [t0; t1; t2; tok] →
     Atoi tok = inr err →
     ∃ message,
       serve' fs SchemasIDs r = Reply fs (mkResponse 500 (errorBody 50001 message))) ∧
  (∀ fs r t0 t1 t2 tok err,
     Method r = "GET" →
     Split (EscapedPath r) "/" = [t0; t1; t2; tok; "versions"] →
     Atoi tok = inr err →
     ∃ message,
       serve' fs SchemasIDs r = Reply fs (mkResponse 500 (errorBody 50001 message))) ∧
  (∀ fs r t0 t1 subject err,
     Method r = "POST" →
     Split (EscapedPath r) "/" = [t0; t1; subject; "versions"] →
     Decode (Body r) = inr err →
     ∃ message,
       serve' fs Subjects r = Reply fs (mkResponse 500 (errorBody 50001 message))).
Proof.
  split_and!.
  - intros fs p r. destruct (serve_reply fs p r) as (fs' & w & H & Hw & _). eauto.
  - intros fs r t0 t1 subject tok version Hm Hs Ha Hnone. simpl.
    rewrite (schemaBySubjectVersion_route fs r t0 t1 subject tok Hm Hs), Ha.
    rewrite findBySubjectVersion_none by done. simpl. eauto.
  - intros fs r t0 t1 t2 tok id Hm Hs Ha Hnone. simpl.
    rewrite (schemaByID_route fs r t0 t1 t2 tok Hm Hs), Ha.
    rewrite findOneByID_none by done. simpl. eauto.
  - intros fs r t0 t1 subject tok err Hm Hs Ha. simpl.
    rewrite (schemaBySubjectVersion_route fs r t0 t1 subject tok Hm Hs), Ha. eauto.
  - intros fs r t0 t1 t2 tok err Hm Hs Ha. simpl.
    rewrite (schemaByID_route fs r t0 t1 t2 tok Hm Hs), Ha. eauto.
  - intros fs r t0 t1 t2 tok err Hm Hs Ha. simpl.
    rewrite (subjectVersionsByID_route fs r t0 t1 t2 tok Hm Hs), Ha. eauto.
  - intros fs r t0 t1 subject err Hm Hs Hd. simpl.
    rewrite (createSchema_route fs r t0 t1 subject Hm Hs), Hd. eauto.
Qed.

(** C10. A numeric segment outside the domain is not malformed input. On
    a server that has answered any sequence of requests, a version or id
    segment that [Atoi] accepts and that matches no record gets the
    structured 404 (40403 for the lookup by id, 40401 for the lookup by
    subject and version), not the 50001 response. Zero and negative
    numbers match no record, since every id and every version is at
    least 1. This is for stores whose slice fits a Go [int]. *)
Theorem numeric_segment_not_found reqs fs tok n :
  serveAll' newFakeServer reqs = Some fs →
  fitsInt (fr fs) →
  Atoi tok = inl n →
  (∀ ss, ss ∈ records (init (fr fs)) → 1 ≤ ID ss ∧ 1 ≤ Version ss) ∧
  (∀ r t0 t1 t2,
     Method r = "GET" →
     Split (EscapedPath r) "/" = [t0; t1; t2; tok] →
     n ≤ 0 ∨ (∀ ss, ss ∈ records (init (fr fs)) → ID ss ≠ n) →
     ∃ w,
       serve' fs SchemasIDs r = Reply (mkFakeServer (init (fr fs))) w ∧
       w = mkResponse 404
             (errorBody 40403 (ErrorText (cerrors_New "schema not found"))) ∧
       ¬ isError w 500 50001) ∧
  (∀ r t0 t1 subject,
     Method r = "GET" →
     Split (EscapedPath r) "/" = [t0; t1; subject; "versions"; tok] →
     n ≤ 0 ∨ (∀ ss, ss ∈ records (init (fr fs)) → Subject ss = subject →
                    Version ss ≠ n) →
     ∃ w,
       serve' fs Subjects r = Reply (mkFakeServer (init (fr fs))) w ∧
       w = mkResponse 404
             (errorBody 40401 (ErrorText (cerrors_New "subject not found"))) ∧
       ¬ isError w 500 50001).
Proof.
  intros Hserve Hfit Ha.
  destruct (serveAll_run _ _ _ Hserve) as [cs Hcs]. simpl in Hcs.
  rewrite Hcs in Hfit.
  destruct (run_step Rabin _ cs (Inv_zero Rabin) Hfit) as (HI & _ & _).
  rewrite <- Hcs in HI.
  destruct (init_view Rabin _ HI) as (Hr & _ & _).
  assert (Hpos : ∀ ss, ss ∈ records (init (fr fs)) → 1 ≤ ID ss ∧ 1 ≤ Version ss).
  { intros ss Hin. rewrite Hr in Hin. split.
    - pose proof (Inv_record_id Rabin _ _ HI Hin). lia.
    - pose proof (inv_version_range _ _ HI _ Hin). lia. }
  split_and!; [done|..].
  - intros r t0 t1 t2 Hm Hs Hnone. simpl.
    rewrite (schemaByID_route fs r t0 t1 t2 tok Hm Hs), Ha.
    rewrite findOneByID_none.
    + simpl. eexists. split_and!; [done..|]. intros [message [=]].
    + destruct Hnone as [Hle|Hnone]; [|done].
      intros ss Hin. destruct (Hpos ss Hin). lia.
  - intros r t0 t1 subject Hm Hs Hnone. simpl.
    rewrite (schemaBySubjectVersion_route fs r t0 t1 subject tok Hm Hs), Ha.
    rewrite findBySubjectVersion_none.
    + simpl. eexists. split_and!; [done..|]. intros [message [=]].
    + destruct Hnone as [Hle|Hnone]; [|done].
      intros ss Hin _. destruct (Hpos ss Hin). lia.
Qed.

End ServerFacts.

(** * The theorems on concrete registries *)

Ltac by_computation := apply (bool_decide_unpack _); vm_compute; exact I.

Lemma idempotent_reregistration_witness :
  fingerprintIDCache (init Sample.store)
    !! Sample.Rabin (Schema_Schema Sample.stringSchema) = Some 1 ∧
  (∃ ss0, ss0 ∈ records (init Sample.store) ∧ Subject ss0 = "foo" ∧ ID ss0 = 1) ∧
  ∃ ss i,
    CreateSchema Sample.Rabin Sample.store "foo" Sample.stringSchema
      = (init Sample.store, ss) ∧
    records (init Sample.store) !! i = Some ss ∧ Subject ss = "foo" ∧ ID ss = 1 ∧
    (∀ j ss', records (init Sample.store) !! j = Some ss' → (j < i)%nat →
              ¬ (Subject ss' = "foo" ∧ ID ss' = 1)) ∧
    findBySubject (fst (CreateSchema Sample.Rabin Sample.store "foo" Sample.stringSchema))
                  "foo"
      = findBySubject (init Sample.store) "foo" ∧
    length (records (fst (CreateSchema Sample.Rabin Sample.store "foo"
                            Sample.stringSchema)))
      = length (records (init Sample.store)).
Proof.
  assert (H1 : fingerprintIDCache (init Sample.store)
                 !! Sample.Rabin (Schema_Schema Sample.stringSchema) = Some 1)
    by (vm_compute; reflexivity).
  assert (H2 : ∃ ss0, ss0 ∈ records (init Sample.store) ∧
                      Subject ss0 = "foo" ∧ ID ss0 = 1).
  { exists (mkSubjectSchema "foo" 1 1 Sample.stringSchema).
    split_and!; [by_computation|reflexivity..]. }
  split; [exact H1|]. split; [exact H2|].
  exact (idempotent_reregistration Sample.Rabin Sample.store "foo"
           Sample.stringSchema 1 H1 H2).
Defined.

Lemma cross_subject_id_reuse_witness :
  "orders" ≠ "payments" ∧
  recordsOf "orders" (records (init Sample.store)) = [] ∧
  recordsOf "payments" (records (init Sample.store)) = [] ∧
  let rA := snd (CreateSchema Sample.Rabin Sample.store "orders" Sample.intSchema) in
  let rB := snd (CreateSchema Sample.Rabin
                   (fst (CreateSchema Sample.Rabin Sample.store "orders" Sample.intSchema))
                   "payments" Sample.intSchema) in
  ID rA = ID rB ∧
  Subject rA = "orders" ∧ Version rA = 1 ∧
  Subject rB = "payments" ∧ Version rB = 1.
Proof.
  assert (H1 : "orders" ≠ "payments") by discriminate.
  assert (H2 : recordsOf "orders" (records (init Sample.store)) = [])
    by (vm_compute; reflexivity).
  assert (H3 : recordsOf "payments" (records (init Sample.store)) = [])
    by (vm_compute; reflexivity).
  split; [exact H1|]. split; [exact H2|]. split; [exact H3|].
  exact (cross_subject_id_reuse Sample.Rabin Sample.store "orders" "payments"
           Sample.intSchema Sample.intSchema H1 eq_refl H2 H3).
Defined.

Lemma version_monotonicity_witness :
  fitsInt (fst (run Sample.Rabin fakeRegistry_zero (Sample.calls ++ Sample.laterCalls))) ∧
  NoDup (registeredFor "foo" Sample.calls) ∧
  collisionFree Sample.Rabin (registeredFor "foo" Sample.calls) ∧
  Version <$> elems (findBySubject (fst (run Sample.Rabin fakeRegistry_zero Sample.calls))
                       "foo")
    = versionsUpTo (length (registeredFor "foo" Sample.calls)) ∧
  elems (findBySubject (fst (run Sample.Rabin fakeRegistry_zero Sample.calls)) "foo")
    `prefix_of`
    elems (findBySubject
             (fst (run Sample.Rabin fakeRegistry_zero (Sample.calls ++ Sample.laterCalls)))
             "foo") ∧
  Version <$> elems (findBySubject
                       (fst (run Sample.Rabin fakeRegistry_zero
                               (Sample.calls ++ Sample.laterCalls))) "foo")
    = versionsUpTo
        (length (elems (findBySubject
                          (fst (run Sample.Rabin fakeRegistry_zero
                                  (Sample.calls ++ Sample.laterCalls))) "foo"))).
Proof.
  assert (H1 : fitsInt (fst (run Sample.Rabin fakeRegistry_zero
                               (Sample.calls ++ Sample.laterCalls))))
    by (unfold fitsInt; vm_compute; discriminate).
  assert (H2 : NoDup (registeredFor "foo" Sample.calls)) by by_computation.
  assert (H3 : collisionFree Sample.Rabin (registeredFor "foo" Sample.calls))
    by by_computation.
  split; [exact H1|]. split; [exact H2|]. split; [exact H3|].
  exact (version_monotonicity Sample.Rabin Sample.calls Sample.laterCalls "foo"
           H1 H2 H3).
Defined.

Lemma id_uniqueness_witness :
  fitsInt (fst (run Sample.Rabin fakeRegistry_zero Sample.calls)) ∧
  collisionFree Sample.Rabin (registered Sample.calls) ∧
  (Schema_Schema Sample.stringSchema ≠ Schema_Schema Sample.intSchema →
   ID (mkSubjectSchema "bar" 1 1 Sample.stringSchema)
   ≠ ID (mkSubjectSchema "foo" 2 2 Sample.intSchema)) ∧
  (Schema_Schema Sample.stringSchema = Schema_Schema Sample.intSchema →
   ID (mkSubjectSchema "bar" 1 1 Sample.stringSchema)
   = ID (mkSubjectSchema "foo" 2 2 Sample.intSchema)) ∧
  fingerprintIDCache (fst (run Sample.Rabin fakeRegistry_zero Sample.calls))
    !! Sample.Rabin (Schema_Schema Sample.stringSchema)
    = Some (ID (mkSubjectSchema "bar" 1 1 Sample.stringSchema)) ∧
  (∀ ss, ss ∈ records (fst (run Sample.Rabin fakeRegistry_zero Sample.calls)) →
         ID ss = ID (mkSubjectSchema "bar" 1 1 Sample.stringSchema) →
         text ss = Schema_Schema Sample.stringSchema).
Proof.
  assert (H1 : fitsInt (fst (run Sample.Rabin fakeRegistry_zero Sample.calls)))
    by (unfold fitsInt; vm_compute; discriminate).
  assert (H2 : collisionFree Sample.Rabin (registered Sample.calls))
    by by_computation.
  split; [exact H1|]. split; [exact H2|].
  exact (id_uniqueness Sample.Rabin Sample.calls 1 3
           "bar" Sample.stringSchema "foo" Sample.intSchema
           (mkSubjectSchema "bar" 1 1 Sample.stringSchema)
           (mkSubjectSchema "foo" 2 2 Sample.intSchema)
           H1 H2 eq_refl eq_refl eq_refl eq_refl).
Defined.

Lemma lookup_round_trip_witness :
  fitsInt (fst (run Sample.Rabin fakeRegistry_zero (Sample.calls ++ Sample.laterCalls))) ∧
  SchemaBySubjectVersion
    (fst (run Sample.Rabin fakeRegistry_zero (Sample.calls ++ Sample.laterCalls)))
    "bar" 1
    = (fst (run Sample.Rabin fakeRegistry_zero (Sample.calls ++ Sample.laterCalls)),
       (mkSubjectSchema "bar" 1 1 Sample.stringSchema, true)) ∧
  ∃ s, SchemaByID
         (fst (run Sample.Rabin fakeRegistry_zero (Sample.calls ++ Sample.laterCalls))) 1
       = (fst (run Sample.Rabin fakeRegistry_zero (Sample.calls ++ Sample.laterCalls)),
          (s, true)) ∧
       Schema_Schema s = Schema_Schema Sample.stringSchema.
Proof.
  assert (H1 : fitsInt (fst (run Sample.Rabin fakeRegistry_zero
                               (Sample.calls ++ Sample.laterCalls))))
    by (unfold fitsInt; vm_compute; discriminate).
  assert (H2 : collisionFree Sample.Rabin (registered (Sample.calls ++ Sample.laterCalls)))
    by by_computation.
  split; [exact H1|].
  destruct (lookup_round_trip Sample.Rabin (Sample.calls ++ Sample.laterCalls) 1
              "bar" Sample.stringSchema
              (mkSubjectSchema "bar" 1 1 Sample.stringSchema)
              H1 eq_refl eq_refl) as (Hsv & s & Hid & _ & Htext).
  split; [exact Hsv|]. exists s. split; [exact Hid|]. exact (Htext H2).
Defined.

Lemma all_versions_by_id_witness :
  Method Sample.getVersionsOfID1 = "GET" ∧
  Split (EscapedPath Sample.getVersionsOfID1) "/"
    = [EmptyString; "schemas"; "ids"; "1"; "versions"] ∧
  Atoi "1" = inl 1 ∧
  elems (snd (SubjectVersionsByID (fr Sample.server) 1))
    = [mkSubjectSchema "foo" 1 1 Sample.stringSchema] ∧
  schemasIDsRoute Sample.MarshalSchema Sample.MarshalSubjectSchema Sample.ErrorText
    Sample.server Sample.getVersionsOfID1
  = Reply (mkFakeServer (init (fr Sample.server)))
      (mkResponse 200
         (JSONBody (JArray [JObject [("subject", JString "foo");
                                     ("version", JNumber 1);
                                     ("id", JNumber 1);
                                     ("schema", JString (Schema_Schema Sample.stringSchema))]]))).
Proof.
  assert (H1 : Method Sample.getVersionsOfID1 = "GET") by reflexivity.
  assert (H2 : Split (EscapedPath Sample.getVersionsOfID1) "/"
               = [EmptyString; "schemas"; "ids"; "1"; "versions"]) by reflexivity.
  assert (H3 : Atoi "1" = inl 1) by reflexivity.
  split; [exact H1|]. split; [exact H2|]. split; [exact H3|].
  destruct (all_versions_by_id Sample.MarshalSchema Sample.MarshalSubjectSchema
              Sample.ErrorText Sample.server Sample.getVersionsOfID1
              EmptyString "schemas" "ids" "1" 1 H1 H2 H3)
    as (_ & Helems & _ & Hsome).
  split.
  - rewrite Helems. vm_compute. reflexivity.
  - apply Hsome; [vm_compute; discriminate|vm_compute; reflexivity].
Defined.

Lemma numeric_segment_not_found_witness :
  serveAll Sample.Rabin Sample.Decode Sample.MarshalSchema Sample.MarshalSubjectSchema
    Sample.ErrorText newFakeServer [(Subjects, Sample.postFoo)] = Some Sample.server ∧
  fitsInt (fr Sample.server) ∧
  Atoi "-5" = inl (-5) ∧
  serve Sample.Rabin Sample.Decode Sample.MarshalSchema Sample.MarshalSubjectSchema
    Sample.ErrorText Sample.server SchemasIDs
    (mkRequest "GET" "/schemas/ids/-5" EmptyString)
  = Reply (mkFakeServer (init (fr Sample.server)))
      (mkResponse 404 (errorBody 40403 "schema not found")) ∧
  serve Sample.Rabin Sample.Decode Sample.MarshalSchema Sample.MarshalSubjectSchema
    Sample.ErrorText Sample.server Subjects
    (mkRequest "GET" "/subjects/foo/versions/-5" EmptyString)
  = Reply (mkFakeServer (init (fr Sample.server)))
      (mkResponse 404 (errorBody 40401 "subject not found")).
Proof.
  assert (H1 : serveAll Sample.Rabin Sample.Decode Sample.MarshalSchema
                 Sample.MarshalSubjectSchema Sample.ErrorText newFakeServer
                 [(Subjects, Sample.postFoo)] = Some Sample.server)
    by (vm_compute; reflexivity).
  assert (H2 : fitsInt (fr Sample.server))
    by (unfold fitsInt; vm_compute; discriminate).
  assert (H3 : Atoi "-5" = inl (-5)) by reflexivity.
  split; [exact H1|]. split; [exact H2|]. split; [exact H3|].
  destruct (numeric_segment_not_found Sample.Rabin Sample.Decode Sample.MarshalSchema
              Sample.MarshalSubjectSchema Sample.ErrorText
              [(Subjects, Sample.postFoo)] Sample.server "-5" (-5) H1 H2 H3)
    as (_ & Hid & Hversion).
  split.
  - destruct (Hid (mkRequest "GET" "/schemas/ids/-5" EmptyString)
                EmptyString "schemas" "ids" eq_refl eq_refl)
      as (w & -> & -> & _); [left; lia|reflexivity].
  - destruct (Hversion (mkRequest "GET" "/subjects/foo/versions/-5" EmptyString)
                EmptyString "subjects" "foo" eq_refl eq_refl)
      as (w & -> & -> & _); [left; lia|reflexivity].
Defined.

(** A new server holds no record: the lookup of id 1 returns the nil
    slice, and the response to [GET /schemas/ids/1/versions] is status 200
    with the body [null], which is not the empty JSON array. *)
Lemma empty_versions_response_is_null :
  filter (λ ss, ID ss = 1) (records (init (fr newFakeServer))) = [] ∧
  snd (SubjectVersionsByID (fr newFakeServer) 1) = Nil ∧
  schemasIDsRoute Sample.MarshalSchema Sample.MarshalSubjectSchema Sample.ErrorText
    newFakeServer Sample.getVersionsOfID1
  = Reply (mkFakeServer (init (fr newFakeServer))) (mkResponse 200 (JSONBody JNull)) ∧
  ¬ (∃ fs',
       schemasIDsRoute Sample.MarshalSchema Sample.MarshalSubjectSchema Sample.ErrorText
         newFakeServer Sample.getVersionsOfID1
       = Reply fs' (mkResponse 200 (JSONBody (JArray [])))).
Proof.
  assert (Hroute :
    schemasIDsRoute Sample.MarshalSchema Sample.MarshalSubjectSchema Sample.ErrorText
      newFakeServer Sample.getVersionsOfID1
    = Reply (mkFakeServer (init (fr newFakeServer))) (mkResponse 200 (JSONBody JNull)))
    by (vm_compute; reflexivity).
  split_and!; [vm_compute; reflexivity..|exact Hroute|].
  intros [fs' H]. rewrite Hroute in H. discriminate H.
Qed.

(** ** Examples *)

Example Atoi_examples :
  Atoi "0" = inl 0 ∧ Atoi "-5" = inl (-5) ∧ Atoi "+7" = inl 7 ∧
  Atoi "9223372036854775807" = inl GoInt.maxInt ∧
  Atoi "9223372036854775808" = inr (NumError "Atoi" "9223372036854775808") ∧
  Atoi "abc" = inr (NumError "Atoi" "abc") ∧
  Atoi "1x" = inr (NumError "Atoi" "1x") ∧
  Atoi "-" = inr (NumError "Atoi" "-") ∧
  Atoi EmptyString = inr (NumError "Atoi" EmptyString).
Proof. by vm_compute. Qed.

Example Split_examples :
  Split "/schemas/ids/-5" "/" = [EmptyString; "schemas"; "ids"; "-5"] ∧
  Split "/subjects/s/versions/0" "/" = [EmptyString; "subjects"; "s"; "versions"; "0"] ∧
  Split EmptyString "/" = [EmptyString] ∧
  Split "/a//b/" "/" = [EmptyString; "a"; EmptyString; "b"; EmptyString].
Proof. by vm_compute. Qed.

Example wrap_examples :
  GoInt.wrap (GoInt.maxInt + 1) = GoInt.minInt ∧ GoInt.add 41 1 = 42.
Proof. by vm_compute. Qed.

(** The scenario of the specification, end to end, on a new server. *)
Example end_to_end :
  let serve := serve Sample.Rabin Sample.Decode Sample.MarshalSchema
                 Sample.MarshalSubjectSchema Sample.ErrorText in
  serve newFakeServer Subjects Sample.postFoo
    = Reply Sample.server (mkResponse 200 (JSONBody (JObject [("id", JNumber 1)]))) ∧
  serve Sample.server Subjects (mkRequest "GET" "/subjects/foo/versions/1" EmptyString)
    = Reply Sample.server
        (mkResponse 200
           (JSONBody (JObject [("subject", JString "foo");
                               ("version", JNumber 1);
                               ("id", JNumber 1);
                               ("schema", JString (Schema_Schema Sample.stringSchema))]))) ∧
  serve Sample.server SchemasIDs (mkRequest "GET" "/schemas/ids/1" EmptyString)
    = Reply Sample.server
        (mkResponse 200
           (JSONBody (JObject [("schema", JString (Schema_Schema Sample.stringSchema))]))) ∧
  serve Sample.server SchemasIDs (mkRequest "GET" "/schemas/ids/2" EmptyString)
    = Reply Sample.server (mkResponse 404 (errorBody 40403 "schema not found")) ∧
  serve Sample.server SchemasIDs (mkRequest "POST" "/schemas/ids/2" EmptyString)
    = Reply Sample.server http_NotFound.
Proof. by vm_compute. Qed.

(** The four malformed requests of the specification, on the sample
    server: each gets status 500 with code 50001 and leaves the store as
    it is. *)
Example wire_error_examples :
  let serve := serve Sample.Rabin Sample.Decode Sample.MarshalSchema
                 Sample.MarshalSubjectSchema Sample.ErrorText in
  (∃ message,
     serve Sample.server Subjects
       (mkRequest "GET" "/subjects/foo/versions/latest" EmptyString)
     = Reply Sample.server (mkResponse 500 (errorBody 50001 message))) ∧
  (∃ message,
     serve Sample.server SchemasIDs (mkRequest "GET" "/schemas/ids/abc" EmptyString)
     = Reply Sample.server (mkResponse 500 (errorBody 50001 message))) ∧
  (∃ message,
     serve Sample.server SchemasIDs
       (mkRequest "GET" "/schemas/ids/abc/versions" EmptyString)
     = Reply Sample.server (mkResponse 500 (errorBody 50001 message))) ∧
  (∃ message,
     serve Sample.server Subjects
       (mkRequest "POST" "/subjects/foo/versions" EmptyString)
     = Reply Sample.server (mkResponse 500 (errorBody 50001 message))).
Proof. split_and!; eexists; vm_compute; reflexivity. Qed.

(** * Further properties of the store *)

Section StoreExtras.

Variable Rabin : string → N.

Lemma findBySubjectVersion_true fr subject version ss :
  findBySubjectVersion fr subject version = (ss, true) →
  ∃ i, records fr !! i = Some ss ∧ Subject ss = subject ∧ Version ss = version ∧
       ∀ j ss', records fr !! j = Some ss' → (j < i)%nat →
                ¬ (Subject ss' = subject ∧ Version ss' = version).
Proof.
  unfold findBySubjectVersion. rewrite findBySubjectVersion_loop_find.
  fold (records fr).
  destruct (list_find _ _) as [[i x]|] eqn:Hf; [|done].
  intros [= ->]. apply list_find_Some in Hf as (Hl & [Hs Hv] & Hfirst).
  exists i. eauto.
Qed.

Lemma findBySubjectVersion_false fr subject version ss :
  findBySubjectVersion fr subject version = (ss, false) →
  ss = SubjectSchema_zero ∧
  ∀ ss', ss' ∈ records fr → ¬ (Subject ss' = subject ∧ Version ss' = version).
Proof.
  unfold findBySubjectVersion. rewrite findBySubjectVersion_loop_find.
  fold (records fr).
  destruct (list_find _ _) as [[i x]|] eqn:Hf; [done|].
  intros [= <-]. split; [done|].
  apply list_find_None in Hf. by rewrite Forall_forall in Hf.
Qed.

Lemma versionsUpTo_lookup n k :
  (k < n)%nat → versionsUpTo n !! k = Some (Z.of_nat k + 1).
Proof.
  intros Hk. unfold versionsUpTo. rewrite list_lookup_fmap.
  rewrite lookup_seq_lt by done. simpl. f_equal. lia.
Qed.

Lemma versionsUpTo_length n : length (versionsUpTo n) = n.
Proof. unfold versionsUpTo. by rewrite length_fmap, length_seq. Qed.

(** The store a sequence of calls reaches from the zero value. *)
Lemma reached_Inv cs :
  fitsInt (fst (run Rabin fakeRegistry_zero cs)) →
  Inv Rabin (fst (run Rabin fakeRegistry_zero cs)).
Proof.
  intros Hfit. by destruct (run_step Rabin _ cs (Inv_zero Rabin) Hfit) as (HI & _).
Qed.

(** The [k]-th record of a subject carries version [k + 1]. *)
Lemma Inv_version_at fr subject k ss :
  Inv Rabin fr → recordsOf subject (records fr) !! k = Some ss →
  Version ss = Z.of_nat k + 1.
Proof.
  intros HI Hk.
  pose proof (inv_versions _ _ HI subject) as Hv.
  assert (Hlt : (k < length (recordsOf subject (records fr)))%nat)
    by (by eapply lookup_lt_Some).
  pose proof (versionsUpTo_lookup _ _ Hlt) as Hl. rewrite <- Hv in Hl.
  rewrite list_lookup_fmap, Hk in Hl. simpl in Hl. by injection Hl.
Qed.

(** The three outcomes of [CreateSchema] on a store with the invariant, in
    terms of the records, the cache and the id sequence. *)
Lemma CreateSchema_exact fr subject schema fr' ss :
  Inv Rabin fr →
  CreateSchema Rabin fr subject schema = (fr', ss) →
  fitsInt fr' →
  (fr' = init fr ∧ ss ∈ records fr ∧ Subject ss = subject ∧
   fingerprintIDCache fr !! Rabin (Schema_Schema schema) = Some (ID ss))
  ∨ (records fr' = records fr ++ [ss] ∧
     fingerprintIDCache fr' = fingerprintIDCache fr ∧
     idSequence fr' = idSequence fr ∧
     fingerprintIDCache fr !! Rabin (Schema_Schema schema) = Some (ID ss) ∧
     (∀ ss', ss' ∈ records fr → Subject ss' = subject → ID ss' ≠ ID ss) ∧
     ss = mkSubjectSchema subject
            (Z.of_nat (length (recordsOf subject (records fr))) + 1) (ID ss) schema)
  ∨ (records fr' = records fr ++ [ss] ∧
     fingerprintIDCache fr'
       = <[Rabin (Schema_Schema schema) := idSequence fr + 1]> (fingerprintIDCache fr) ∧
     idSequence fr' = idSequence fr + 1 ∧
     fingerprintIDCache fr !! Rabin (Schema_Schema schema) = None ∧
     ss = mkSubjectSchema subject
            (Z.of_nat (length (recordsOf subject (records fr))) + 1)
            (idSequence fr + 1) schema).
Proof.
  intros HI HC Hfit.
  pose proof (Inv_init Rabin _ HI) as HI0.
  destruct (init_view Rabin _ HI) as (Hr & Hc & Hs).
  destruct (CreateSchema_cases Rabin fr subject schema)
    as [(id & ss0 & Hl & Hf & HC')|[(id & Hl & Hf & HC')|(Hl & HC')]];
    simpl in HC'; rewrite HC in HC'; injection HC' as -> ->.
  - left. apply findBySubjectID_true in Hf as (i & Hi & Hsub & Hid & _).
    apply list_elem_of_lookup_2 in Hi. rewrite Hr in Hi. rewrite Hc in Hl.
    split_and!; try done. by rewrite Hid.
  - right; left.
    assert (Hroom : len (schemas (init fr)) < GoInt.maxInt).
    { unfold fitsInt, len in *. simpl in Hfit. rewrite length_app in Hfit.
      simpl in Hfit. lia. }
    rewrite (nextVersion_count _ _ Hroom). unfold records at 1. simpl.
    fold (records (init fr)). rewrite Hr, <- Hc, <- Hs.
    split_and!; try done.
    intros ss' Hin Hsub. rewrite <- Hr in Hin.
    by apply (findBySubjectID_false _ _ _ Hf ss').
  - right; right.
    assert (Hroom : len (schemas (init fr)) < GoInt.maxInt).
    { unfold fitsInt, len in *. simpl in Hfit. rewrite length_app in Hfit.
      simpl in Hfit. lia. }
    pose proof (inv_seq _ _ HI0) as Hseq.
    rewrite (nextVersion_count _ _ Hroom).
    rewrite add_one_inRange by lia.
    unfold records at 1. simpl. fold (records (init fr)).
    rewrite Hr, <- Hc, <- Hs. by split_and!.
Qed.

(** The first call of a sequence, with what the rest starts from. *)
Lemma run_cons_inv fr c cs :
  Inv Rabin fr → fitsInt (fst (run Rabin fr (c :: cs))) →
  ∃ fr1 x, exec Rabin fr c = (fr1, x) ∧ fitsInt fr1 ∧ Inv Rabin fr1 ∧
           fst (run Rabin fr (c :: cs)) = fst (run Rabin fr1 cs) ∧
           snd (run Rabin fr (c :: cs)) = x :: snd (run Rabin fr1 cs).
Proof.
  intros HI Hfit. rewrite run_cons_fst in Hfit.
  destruct (exec_length Rabin fr c (Inv_wf Rabin _ HI)) as [Hi1 _].
  destruct (exec Rabin fr c) as [fr1 x] eqn:He. simpl in *.
  assert (Hfit1 : fitsInt fr1).
  { eapply fitsInt_le; [|exact Hfit]. apply run_length. by rewrite Hi1. }
  destruct (exec_step Rabin _ _ _ _ HI He Hfit1) as (HI1 & _ & _).
  exists fr1, x. rewrite He. split_and!; try done;
    by destruct (run Rabin fr1 cs).
Qed.

(** A property every call preserves holds along every sequence of calls. *)
Lemma run_invariant (P : fakeRegistry → Prop) :
  (∀ fr c fr' x, Inv Rabin fr → P fr → exec Rabin fr c = (fr', x) →
                 fitsInt fr' → P fr') →
  ∀ cs fr, Inv Rabin fr → P fr → fitsInt (fst (run Rabin fr cs)) →
           P (fst (run Rabin fr cs)).
Proof.
  intros Hstep cs. induction cs as [|c cs IH]; intros fr HI HP Hfit; [done|].
  destruct (run_cons_inv fr c cs HI Hfit) as (fr1 & x & He & Hfit1 & HI1 & Hf & _).
  rewrite Hf in Hfit |- *. apply IH; [done| |done].
  exact (Hstep fr c fr1 x HI HP He Hfit1).
Qed.

Lemma Backed_zero : Backed Rabin fakeRegistry_zero.
Proof.
  split; simpl.
  - intros fp id H. by rewrite lookup_empty in H.
  - intros k Hk. lia.
  - by rewrite map_size_empty.
Qed.

Lemma Backed_ext fr fr' :
  records fr' = records fr →
  fingerprintIDCache fr' = fingerprintIDCache fr →
  idSequence fr' = idSequence fr →
  Backed Rabin fr → Backed Rabin fr'.
Proof.
  intros Hr Hc Hs [H1 H2 H3]. split; rewrite ?Hr, ?Hc, ?Hs; done.
Qed.

Lemma Backed_exec fr c fr' x :
  Inv Rabin fr → Backed Rabin fr → exec Rabin fr c = (fr', x) → fitsInt fr' →
  Backed Rabin fr'.
Proof.
  intros HI HB He Hfit.
  destruct (init_view Rabin _ HI) as (Hr & Hc & Hs).
  pose proof (Backed_ext fr (init fr) Hr Hc Hs HB) as HB0.
  assert (Hlook : (∀ subject schema, c ≠ CallCreateSchema subject schema) →
                  fr' = init fr).
  { intros Hc'. pose proof (exec_lookup Rabin fr c Hc') as Hk. by rewrite He in Hk. }
  destruct c as [subject schema| id | subject version | id];
    [|by rewrite Hlook..].
  simpl in He.
  destruct (CreateSchema Rabin fr subject schema) as [fr1 ss] eqn:HC.
  injection He as -> <-.
  destruct HB as [Hcache Hids Hsize].
  destruct (CreateSchema_exact _ _ _ _ _ HI HC Hfit)
    as [(-> & _)|[(Hr' & Hc' & Hs' & _)|(Hr' & Hc' & Hs' & Hnone & Hss)]].
  - done.
  - split; rewrite ?Hr', ?Hc', ?Hs'; try done.
    intros fp id Hl. destruct (Hcache fp id Hl) as (ss' & Hin & H1 & H2).
    exists ss'. split_and!; try done. apply elem_of_app. by left.
  - split; rewrite ?Hr', ?Hc', ?Hs'.
    + intros fp id Hl.
      destruct (decide (Rabin (Schema_Schema schema) = fp)) as [<-|Hne].
      * rewrite lookup_insert_eq in Hl. injection Hl as <-.
        exists ss. split_and!.
        -- apply elem_of_app. right. by apply list_elem_of_singleton.
        -- by rewrite Hss.
        -- by rewrite Hss.
      * rewrite lookup_insert_ne in Hl by done.
        destruct (Hcache fp id Hl) as (ss' & Hin & H1 & H2).
        exists ss'. split_and!; try done. apply elem_of_app. by left.
    + intros k Hk. destruct (decide (k = idSequence fr + 1)) as [->|Hne].
      * exists (Rabin (Schema_Schema schema)). by rewrite lookup_insert_eq.
      * destruct (Hids k) as [fp Hfp]; [lia|].
        exists fp. rewrite lookup_insert_ne; [done|]. intros <-. congruence.
    + rewrite map_size_insert_None by done. lia.
Qed.

(** The store a sequence of calls reaches from the zero value is backed. *)
Lemma reached_Backed cs :
  fitsInt (fst (run Rabin fakeRegistry_zero cs)) →
  Backed Rabin (fst (run Rabin fakeRegistry_zero cs)).
Proof.
  intros Hfit.
  apply (run_invariant (Backed Rabin)); [|apply Inv_zero|apply Backed_zero|done].
  intros fr c fr' x HI HB He Hf. by eapply Backed_exec.
Qed.

(** A sequence of calls adds at most one record for each of its
    [CreateSchema] calls. *)
Lemma run_growth fr cs :
  Inv Rabin fr → fitsInt (fst (run Rabin fr cs)) →
  (length (records (fst (run Rabin fr cs)))
   ≤ length (records fr) + length (registered cs))%nat.
Proof.
  revert fr. induction cs as [|c cs IH]; intros fr HI Hfit; [simpl; lia|].
  destruct (run_cons_inv fr c cs HI Hfit) as (fr1 & x & He & Hfit1 & HI1 & Hf & _).
  rewrite Hf in Hfit |- *. specialize (IH fr1 HI1 Hfit).
  destruct (init_view Rabin _ HI) as (Hr & _).
  assert (Hlook : (∀ subject schema, c ≠ CallCreateSchema subject schema) →
                  (length (records (fst (run Rabin fr1 cs)))
                   ≤ length (records fr) + length (registered (c :: cs)))%nat).
  { intros Hc'. pose proof (exec_lookup Rabin fr c Hc') as Hk. rewrite He in Hk.
    simpl in Hk. rewrite Hk, Hr in IH. rewrite Hk.
    assert (Hreg : registered (c :: cs) = registered cs)
      by (destruct c; [by destruct (Hc' subject schema)|done..]).
    by rewrite Hreg. }
  destruct c as [subject schema| id | subject version | id];
    [|by apply Hlook..].
  simpl in He.
  destruct (CreateSchema Rabin fr subject schema) as [fr1' ss] eqn:HC.
  injection He as -> <-.
  assert (Hreg : length (registered (CallCreateSchema subject schema :: cs))
                 = S (length (registered cs))) by reflexivity.
  rewrite Hreg.
  destruct (CreateSchema_exact _ _ _ _ _ HI HC Hfit1)
    as [(Hfr & _)|[(Hr' & _)|(Hr' & _)]].
  - rewrite Hfr, Hr in IH. rewrite Hfr. lia.
  - rewrite Hr', length_app in IH. simpl in IH. lia.
  - rewrite Hr', length_app in IH. simpl in IH. lia.
Qed.

(** The records of a store with the invariant are pairwise distinct. *)
Lemma Inv_NoDup fr : Inv Rabin fr → NoDup (records fr).
Proof.
  intros HI. apply NoDup_alt. intros i j ss Hi Hj.
  by eapply (inv_subject_id _ _ HI).
Qed.

Lemma registered_lookups cs :
  Forall (λ c, isLookup c = true) cs → registered cs = [].
Proof.
  induction 1 as [|c cs Hc _ IH]; [done|].
  destruct c; [done|exact IH..].
Qed.

(** X1. Lookup by subject and version is an exact match. On any store,
    [SchemaBySubjectVersion] reports [true] exactly when a record with the
    subject and the version exists; it then returns the first such record
    in insertion order, and otherwise the zero record. The store is left
    as its lazy initialisation leaves it. *)
Theorem subject_version_lookup_exact fr subject version :
  fst (SchemaBySubjectVersion fr subject version) = init fr ∧
  (snd (snd (SchemaBySubjectVersion fr subject version)) = true ↔
   ∃ ss, ss ∈ records (init fr) ∧ Subject ss = subject ∧ Version ss = version) ∧
  (snd (snd (SchemaBySubjectVersion fr subject version)) = true →
   ∃ i, records (init fr) !! i
          = Some (fst (snd (SchemaBySubjectVersion fr subject version))) ∧
        Subject (fst (snd (SchemaBySubjectVersion fr subject version))) = subject ∧
        Version (fst (snd (SchemaBySubjectVersion fr subject version))) = version ∧
        ∀ j ss', records (init fr) !! j = Some ss' → (j < i)%nat →
                 ¬ (Subject ss' = subject ∧ Version ss' = version)) ∧
  (snd (snd (SchemaBySubjectVersion fr subject version)) = false →
   fst (snd (SchemaBySubjectVersion fr subject version)) = SubjectSchema_zero).
Proof.
  unfold SchemaBySubjectVersion. simpl.
  destruct (findBySubjectVersion (init fr) subject version) as [ss ok] eqn:Hf.
  simpl. destruct ok.
  - destruct (findBySubjectVersion_true _ _ _ _ Hf) as (i & Hi & Hs & Hv & Hfirst).
    split_and!; try done.
    + split; [|done]. intros _. exists ss. split_and!; try done.
      by eapply list_elem_of_lookup_2.
    + intros _. exists i. by split_and!.
  - destruct (findBySubjectVersion_false _ _ _ _ Hf) as (-> & Hnone).
    split_and!; try done.
    split; [done|]. intros (ss & Hin & Hs & Hv). by destruct (Hnone ss Hin).
Qed.

(** X2. The versions of a subject that can be looked up are exactly
    [1 .. N], for [N] the number of its records: on a store reached from
    the zero value, version [k + 1] is the [k]-th record registered for
    the subject (counting from 0), and no other version is found. *)
Theorem lookup_by_version_range cs subject :
  fitsInt (fst (run Rabin fakeRegistry_zero cs)) →
  (∀ k ss,
     recordsOf subject (records (fst (run Rabin fakeRegistry_zero cs))) !! k = Some ss →
     snd (SchemaBySubjectVersion (fst (run Rabin fakeRegistry_zero cs)) subject
            (Z.of_nat k + 1)) = (ss, true)) ∧
  (∀ version,
     ¬ (1 ≤ version
        ≤ Z.of_nat (length (recordsOf subject
                              (records (fst (run Rabin fakeRegistry_zero cs)))))) →
     snd (SchemaBySubjectVersion (fst (run Rabin fakeRegistry_zero cs)) subject version)
     = (SubjectSchema_zero, false)).
Proof.
  intros Hfit. pose proof (reached_Inv cs Hfit) as HI.
  pose proof (Inv_init Rabin _ HI) as HI0.
  destruct (init_view Rabin _ HI) as (Hr & _).
  unfold SchemaBySubjectVersion. simpl. split.
  - intros k ss Hk.
    pose proof (Inv_version_at _ _ _ _ HI Hk) as Hv.
    apply list_elem_of_lookup_2 in Hk.
    apply list_elem_of_filter in Hk as [Hs Hin].
    rewrite <- Hv, <- Hs. apply (findBySubjectVersion_record Rabin); [done|].
    by rewrite Hr.
  - intros version Hout. apply findBySubjectVersion_none.
    intros ss Hin Hs Hv. rewrite Hr in Hin.
    pose proof (inv_version_range _ _ HI _ Hin) as Hrange.
    rewrite Hs, Hv in Hrange. by apply Hout.
Qed.

(** X3. A store reached from the zero value holds at most one record for
    a subject and an id, and at most one for a subject and a version. *)
Theorem one_record_per_subject_key cs i j ssi ssj :
  fitsInt (fst (run Rabin fakeRegistry_zero cs)) →
  records (fst (run Rabin fakeRegistry_zero cs)) !! i = Some ssi →
  records (fst (run Rabin fakeRegistry_zero cs)) !! j = Some ssj →
  Subject ssi = Subject ssj →
  ID ssi = ID ssj ∨ Version ssi = Version ssj →
  i = j.
Proof.
  intros Hfit Hi Hj Hs Hkey. pose proof (reached_Inv cs Hfit) as HI.
  destruct Hkey as [Hid|Hv].
  - by eapply (inv_subject_id _ _ HI).
  - by eapply (inv_subject_version _ _ HI).
Qed.

(** X4. Registering again returns the first record. In a sequence of
    calls on a new registry, two [CreateSchema] calls for the same subject
    whose texts have the same fingerprint return the same record, whatever
    was called in between: the later call hands back the record of the
    earlier one, with the schema (and type tag) stored then. *)
Theorem reregistration_same_record cs i j subject c1 c2 r1 r2 :
  fitsInt (fst (run Rabin fakeRegistry_zero cs)) →
  cs !! i = Some (CallCreateSchema subject c1) →
  cs !! j = Some (CallCreateSchema subject c2) →
  Rabin (Schema_Schema c1) = Rabin (Schema_Schema c2) →
  snd (run Rabin fakeRegistry_zero cs) !! i = Some (Created r1) →
  snd (run Rabin fakeRegistry_zero cs) !! j = Some (Created r2) →
  r1 = r2.
Proof.
  intros Hfit Hi Hj Hfp Hxi Hxj. pose proof (reached_Inv cs Hfit) as HI.
  destruct (run_created Rabin _ _ _ _ _ _ (Inv_zero Rabin) Hfit Hi Hxi)
    as (ss1 & [= <-] & Hin1 & Hs1 & Hc1 & _).
  destruct (run_created Rabin _ _ _ _ _ _ (Inv_zero Rabin) Hfit Hj Hxj)
    as (ss2 & [= <-] & Hin2 & Hs2 & Hc2 & _).
  apply list_elem_of_lookup_1 in Hin1 as [k1 Hk1].
  apply list_elem_of_lookup_1 in Hin2 as [k2 Hk2].
  assert (k1 = k2) as ->.
  { eapply (inv_subject_id _ _ HI); [exact Hk1|exact Hk2|congruence|].
    rewrite Hfp in Hc1. congruence. }
  congruence.
Qed.

(** X5. Ids are handed out consecutively. On a store reached from the
    zero value, the ids of the records are exactly [1 .. idSequence],
    without gap, and [idSequence] is the number of fingerprints in the
    cache. *)
Theorem ids_are_consecutive cs :
  fitsInt (fst (run Rabin fakeRegistry_zero cs)) →
  (∀ k, 1 ≤ k ≤ idSequence (fst (run Rabin fakeRegistry_zero cs)) ↔
        ∃ ss, ss ∈ records (fst (run Rabin fakeRegistry_zero cs)) ∧ ID ss = k) ∧
  idSequence (fst (run Rabin fakeRegistry_zero cs))
  = Z.of_nat (size (fingerprintIDCache (fst (run Rabin fakeRegistry_zero cs)))).
Proof.
  intros Hfit. pose proof (reached_Inv cs Hfit) as HI.
  destruct (reached_Backed cs Hfit) as [Hcache Hids Hsize].
  split; [|done]. intros k. split.
  - intros Hk. destruct (Hids k Hk) as [fp Hfp].
    destruct (Hcache fp k Hfp) as (ss & Hin & _ & Hid). eauto.
  - intros (ss & Hin & <-). by apply (Inv_record_id Rabin).
Qed.

(** X6. The cache and the records agree. On a store reached from the zero
    value, the cache maps a fingerprint to an id exactly when some record
    holds a text with that fingerprint under that id: no fingerprint is
    cached without its record, and no record is stored without its cache
    entry. *)
Theorem cache_matches_records cs fp id :
  fitsInt (fst (run Rabin fakeRegistry_zero cs)) →
  fingerprintIDCache (fst (run Rabin fakeRegistry_zero cs)) !! fp = Some id ↔
  ∃ ss, ss ∈ records (fst (run Rabin fakeRegistry_zero cs)) ∧
        Rabin (text ss) = fp ∧ ID ss = id.
Proof.
  intros Hfit. pose proof (reached_Inv cs Hfit) as HI.
  destruct (reached_Backed cs Hfit) as [Hcache _ _]. split.
  - apply Hcache.
  - intros (ss & Hin & <- & <-). by apply (inv_records _ _ HI).
Qed.

(** X7. The three outcomes of a registration. On a store reached from the
    zero value, [CreateSchema] does exactly one of three things. If the
    subject already holds the id of the text's fingerprint, it returns
    that record and only initialises the store. If the fingerprint is
    cached but not under this subject, it appends a record with the cached
    id and leaves cache and id sequence alone. If the fingerprint is new,
    it appends a record with the id [idSequence + 1], larger than every id
    in the store, caches it and advances the sequence. An appended record
    holds the schema passed in and the version one more than the number of
    the subject's records. *)
Theorem register_outcomes cs subject schema :
  fitsInt (fst (CreateSchema Rabin (fst (run Rabin fakeRegistry_zero cs)) subject schema)) →
  let fr := fst (run Rabin fakeRegistry_zero cs) in
  let fr' := fst (CreateSchema Rabin fr subject schema) in
  let ss := snd (CreateSchema Rabin fr subject schema) in
  let fp := Rabin (Schema_Schema schema) in
  let version := Z.of_nat (length (recordsOf subject (records fr))) + 1 in
  (fr' = init fr ∧ ss ∈ records fr ∧ Subject ss = subject ∧
   fingerprintIDCache fr !! fp = Some (ID ss))
  ∨ (records fr' = records fr ++ [ss] ∧
     fingerprintIDCache fr' = fingerprintIDCache fr ∧
     idSequence fr' = idSequence fr ∧
     fingerprintIDCache fr !! fp = Some (ID ss) ∧
     (∀ ss', ss' ∈ records fr → Subject ss' = subject → ID ss' ≠ ID ss) ∧
     ss = mkSubjectSchema subject version (ID ss) schema)
  ∨ (records fr' = records fr ++ [ss] ∧
     fingerprintIDCache fr' = <[fp := idSequence fr + 1]> (fingerprintIDCache fr) ∧
     idSequence fr' = idSequence fr + 1 ∧
     fingerprintIDCache fr !! fp = None ∧
     (∀ ss', ss' ∈ records fr → ID ss' < idSequence fr + 1) ∧
     ss = mkSubjectSchema subject version (idSequence fr + 1) schema).
Proof.
  intros Hfit. cbv zeta.
  set (fr := fst (run Rabin fakeRegistry_zero cs)) in *.
  assert (Hwf : initOnce fr = false → records fr = [])
    by (by apply (run_wf Rabin fakeRegistry_zero cs)).
  pose proof (exec_length Rabin fr (CallCreateSchema subject schema) Hwf) as [_ Hl].
  simpl in Hl.
  destruct (CreateSchema Rabin fr subject schema) as [fr' ss] eqn:HC. simpl in *.
  pose proof (reached_Inv cs (fitsInt_le _ _ Hl Hfit)) as HI. fold fr in HI.
  destruct (CreateSchema_exact fr subject schema fr' ss HI HC Hfit) as [H|[H|H]];
    [by left|by right; left|].
  right; right. destruct H as (H1 & H2 & H3 & H4 & H5).
  split_and!; try done.
  intros ss' Hin. pose proof (Inv_record_id Rabin _ _ HI Hin). lia.
Qed.

(** X8. The store is append-only. On a store reached from the zero value,
    whatever calls follow, the records stay in place at the front of the
    list, the list grows by at most one record for each [CreateSchema]
    among the calls, and lookups alone leave the records as they are. *)
Theorem store_is_append_only cs cs' :
  fitsInt (fst (run Rabin fakeRegistry_zero (cs ++ cs'))) →
  records (fst (run Rabin fakeRegistry_zero cs))
    `prefix_of` records (fst (run Rabin fakeRegistry_zero (cs ++ cs'))) ∧
  (length (records (fst (run Rabin fakeRegistry_zero (cs ++ cs'))))
   ≤ length (records (fst (run Rabin fakeRegistry_zero cs))) + length (registered cs'))%nat ∧
  (Forall (λ c, isLookup c = true) cs' →
   records (fst (run Rabin fakeRegistry_zero (cs ++ cs')))
   = records (fst (run Rabin fakeRegistry_zero cs))).
Proof.
  intros Hfit'.
  destruct (run_zero_Inv Rabin cs cs' Hfit') as (Hfit & HI & HI' & Hpre).
  assert (Hlen : (length (records (fst (run Rabin fakeRegistry_zero (cs ++ cs'))))
                  ≤ length (records (fst (run Rabin fakeRegistry_zero cs)))
                    + length (registered cs'))%nat).
  { rewrite run_app in Hfit' |- *. by apply run_growth. }
  split_and!; try done.
  intros Hlook. rewrite (registered_lookups _ Hlook) in Hlen. simpl in Hlen.
  symmetry. apply prefix_length_eq; [done|lia].
Qed.

(** X9. The versions sharing an id are one per subject. On a store
    reached from the zero value, the records [SubjectVersionsByID] returns
    all carry the id asked for and no two of them carry the same
    subject. *)
Theorem all_versions_one_per_subject cs id :
  fitsInt (fst (run Rabin fakeRegistry_zero cs)) →
  NoDup (Subject <$> elems (snd (SubjectVersionsByID
                                   (fst (run Rabin fakeRegistry_zero cs)) id))) ∧
  ∀ ss, ss ∈ elems (snd (SubjectVersionsByID (fst (run Rabin fakeRegistry_zero cs)) id)) →
        ID ss = id ∧ ss ∈ records (fst (run Rabin fakeRegistry_zero cs)).
Proof.
  intros Hfit. pose proof (reached_Inv cs Hfit) as HI.
  pose proof (Inv_init Rabin _ HI) as HI0.
  destruct (init_view Rabin _ HI) as (Hr & _).
  unfold SubjectVersionsByID. simpl. rewrite findAllByID_elems.
  assert (Hmem : ∀ ss, ss ∈ recordsWithID id
                                (records (init (fst (run Rabin fakeRegistry_zero cs)))) →
                       ID ss = id ∧ ss ∈ records (fst (run Rabin fakeRegistry_zero cs))).
  { intros ss Hin. apply list_elem_of_filter in Hin as [Hid Hin].
    by rewrite Hr in Hin. }
  split; [|done].
  apply NoDup_fmap_2_strong.
  - intros a b Ha Hb Hs.
    destruct (Hmem a Ha) as [Hida Hina]. destruct (Hmem b Hb) as [Hidb Hinb].
    apply list_elem_of_lookup_1 in Hina as [i Hi].
    apply list_elem_of_lookup_1 in Hinb as [j Hj].
    assert (i = j) as -> by (eapply (inv_subject_id _ _ HI); eauto; congruence).
    congruence.
  - apply NoDup_filter, (Inv_NoDup _ HI0).
Qed.

End StoreExtras.

(** * Further properties of the HTTP front *)

Section ServerExtras.

Variable Rabin : string → N.
Variable Decode : string → Schema + goError.
Variable MarshalSchema : Schema → json + goError.
Variable MarshalSubjectSchema : SubjectSchema → json + goError.
Variable ErrorText : goError → string.

Local Abbreviation marshal := (Marshal MarshalSchema MarshalSubjectSchema).
Local Abbreviation toJSON :=
  (fakeServer_json MarshalSchema MarshalSubjectSchema ErrorText).
Local Abbreviation idsRoute :=
  (schemasIDsRoute MarshalSchema MarshalSubjectSchema ErrorText).
Local Abbreviation subjRoute :=
  (subjectsRoute Rabin Decode MarshalSchema MarshalSubjectSchema ErrorText).
Local Abbreviation serve' :=
  (serve Rabin Decode MarshalSchema MarshalSubjectSchema ErrorText).
Local Abbreviation serveAll' :=
  (serveAll Rabin Decode MarshalSchema MarshalSubjectSchema ErrorText).

Lemma method_mismatch (m expected : string) :
  m ≠ expected → negb (String.eqb m expected) = true.
Proof. intros Hne. by apply negb_true_iff, String.eqb_neq. Qed.

Lemma tokens4 (l : list string) :
  length l = 4%nat → ∃ t0 t1 t2 t3, l = [t0; t1; t2; t3].
Proof. destruct l as [|? [|? [|? [|? [|? ?]]]]]; try done. eauto. Qed.

Lemma tokens5 (l : list string) :
  length l = 5%nat → ∃ t0 t1 t2 t3 t4, l = [t0; t1; t2; t3; t4].
Proof. destruct l as [|? [|? [|? [|? [|? [|? ?]]]]]]; try done. eauto 6. Qed.

(** The function of ["/schemas/ids/"] on a method other than GET. *)
Lemma idsRoute_method fs r :
  Method r ≠ "GET" → idsRoute fs r = Reply fs http_NotFound.
Proof.
  intros Hm. unfold schemasIDsRoute, schemaByID, subjectVersionsByID.
  rewrite (method_mismatch _ _ Hm).
  destruct (length (Split (EscapedPath r) "/") =? 4)%nat; [done|].
  by destruct (_ && _).
Qed.

(** The function of ["/schemas/ids/"] on a path of another shape. *)
Lemma idsRoute_shape fs r :
  length (Split (EscapedPath r) "/") ≠ 4%nat →
  ¬ (length (Split (EscapedPath r) "/") = 5%nat ∧
     Split (EscapedPath r) "/" !! 4%nat = Some "versions") →
  idsRoute fs r = Reply fs http_NotFound.
Proof.
  intros H4 H5. unfold schemasIDsRoute.
  destruct (Nat.eqb_spec (length (Split (EscapedPath r) "/")) 4); [done|].
  destruct (Nat.eqb_spec (length (Split (EscapedPath r) "/")) 5); [|done].
  rewrite bool_decide_eq_false_2; [done|]. intros Hv. by apply H5.
Qed.

(** The function of ["/subjects/"] on a path of another shape. *)
Lemma subjRoute_shape fs r :
  ¬ ((length (Split (EscapedPath r) "/") = 4%nat ∨
      length (Split (EscapedPath r) "/") = 5%nat) ∧
     Split (EscapedPath r) "/" !! 3%nat = Some "versions") →
  subjRoute fs r = Reply fs http_NotFound.
Proof.
  intros Hshape. unfold subjectsRoute.
  destruct (decide (Split (EscapedPath r) "/" !! 3%nat = Some "versions")) as [Hv|Hv].
  - rewrite !bool_decide_eq_true_2 by done. rewrite !andb_true_r.
    destruct (Nat.eqb_spec (length (Split (EscapedPath r) "/")) 4);
      [destruct Hshape; eauto|].
    destruct (Nat.eqb_spec (length (Split (EscapedPath r) "/")) 5);
      [destruct Hshape; eauto|done].
  - rewrite !bool_decide_eq_false_2 by done. by rewrite !andb_false_r.
Qed.

(** The function of ["/subjects/"] on a method its handler does not take:
    anything but POST on the four-token path, anything but GET on the
    five-token path. *)
Lemma subjRoute_method fs r :
  (length (Split (EscapedPath r) "/") = 4%nat → Method r ≠ "POST") →
  (length (Split (EscapedPath r) "/") = 5%nat → Method r ≠ "GET") →
  subjRoute fs r = Reply fs http_NotFound.
Proof.
  intros H4 H5. unfold subjectsRoute, createSchema, schemaBySubjectVersion.
  destruct (Nat.eqb_spec (length (Split (EscapedPath r) "/")) 4) as [E4|E4].
  - rewrite (method_mismatch _ _ (H4 E4)).
    destruct (Nat.eqb_spec (length (Split (EscapedPath r) "/")) 5); [lia|].
    simpl. by destruct (bool_decide _).
  - simpl. destruct (Nat.eqb_spec (length (Split (EscapedPath r) "/")) 5) as [E5|E5];
      [|done].
    rewrite (method_mismatch _ _ (H5 E5)). simpl. by destruct (bool_decide _).
Qed.

(** Every way a request can end, with its cause: the not-found of the
    transport, a segment [Atoi] rejects, a body that does not decode, a
    lookup, or a registration. *)
Lemma serve_outcome fs p r :
  ∃ fs' w, serve' fs p r = Reply fs' w ∧
    ((fs' = fs ∧ w = http_NotFound)
     ∨ (fs' = fs ∧ Method r = "GET" ∧ isError w 500 50001 ∧
        ∃ tok err, tok ∈ Split (EscapedPath r) "/" ∧ Atoi tok = inr err)
     ∨ (fs' = fs ∧ p = Subjects ∧ Method r = "POST" ∧ isError w 500 50001 ∧
        ∃ err, Decode (Body r) = inr err)
     ∨ (fs' = mkFakeServer (init (fr fs)) ∧ Method r = "GET" ∧
        ((∃ v, w = toJSON v) ∨ isError w 404 40401 ∨ isError w 404 40403))
     ∨ (p = Subjects ∧ Method r = "POST" ∧
        ∃ subject schema,
          Decode (Body r) = inl schema ∧
          Split (EscapedPath r) "/" !! 2%nat = Some subject ∧
          fs' = mkFakeServer (fst (CreateSchema Rabin (fr fs) subject schema)) ∧
          w = mkResponse 200
                (JSONBody (JObject
                   [("id", JNumber (ID (snd (CreateSchema Rabin (fr fs) subject schema))))])))).
Proof.
  destruct p; simpl.
  - (* the pattern of the ids *)
    destruct (decide (Method r = "GET")) as [Hm|Hm].
    2:{ rewrite idsRoute_method by done. eauto 10. }
    destruct (decide (length (Split (EscapedPath r) "/") = 4%nat)) as [E4|E4].
    { destruct (tokens4 _ E4) as (t0 & t1 & t2 & tok & Hs).
      rewrite (schemaByID_route MarshalSchema MarshalSubjectSchema ErrorText
                 fs r t0 t1 t2 tok Hm Hs).
      destruct (Atoi tok) as [id|err] eqn:Ha.
      - destruct (snd (findOneByID (init (fr fs)) id)).
        + eexists _, _. split; [done|]. do 3 right. left. eauto 8.
        + eexists _, _. split; [done|]. do 3 right. left.
          split_and!; try done. right; right. by eexists.
      - eexists _, _. split; [done|]. right; left. split_and!; try done.
        + by eexists.
        + exists tok, err. split; [|done]. rewrite Hs. set_solver. }
    destruct (decide (length (Split (EscapedPath r) "/") = 5%nat ∧
                      Split (EscapedPath r) "/" !! 4%nat = Some "versions"))
      as [[E5 Hv]|E5].
    2:{ rewrite idsRoute_shape by done. eauto 10. }
    destruct (tokens5 _ E5) as (t0 & t1 & t2 & tok & t4 & Hs).
    rewrite Hs in Hv. injection Hv as ->.
    rewrite (subjectVersionsByID_route MarshalSchema MarshalSubjectSchema ErrorText
               fs r t0 t1 t2 tok Hm Hs).
    destruct (Atoi tok) as [id|err] eqn:Ha.
    + eexists _, _. split; [done|]. do 3 right. left. eauto 8.
    + eexists _, _. split; [done|]. right; left. split_and!; try done.
      * by eexists.
      * exists tok, err. split; [|done]. rewrite Hs. set_solver.
  - (* the pattern of the subjects *)
    destruct (decide ((length (Split (EscapedPath r) "/") = 4%nat ∨
                       length (Split (EscapedPath r) "/") = 5%nat) ∧
                      Split (EscapedPath r) "/" !! 3%nat = Some "versions"))
      as [[[E4|E5] Hv]|Hshape].
    3:{ rewrite subjRoute_shape by done. eauto 10. }
    + destruct (decide (Method r = "POST")) as [Hm|Hm].
      2:{ rewrite subjRoute_method; [eauto 10|done|lia]. }
      destruct (tokens4 _ E4) as (t0 & t1 & subject & t3 & Hs).
      rewrite Hs in Hv. injection Hv as ->.
      rewrite (createSchema_route Rabin Decode MarshalSchema MarshalSubjectSchema
                 ErrorText fs r t0 t1 subject Hm Hs).
      destruct (Decode (Body r)) as [schema|err] eqn:Hd.
      * eexists _, _. split; [done|]. do 4 right.
        split_and!; try done. exists subject, schema. rewrite Hs. by split_and!.
      * eexists _, _. split; [done|]. right; right; left. split_and!; try done.
        -- by eexists.
        -- by eexists.
    + destruct (decide (Method r = "GET")) as [Hm|Hm].
      2:{ rewrite subjRoute_method; [eauto 10|lia|done]. }
      destruct (tokens5 _ E5) as (t0 & t1 & subject & t3 & tok & Hs).
      rewrite Hs in Hv. injection Hv as ->.
      rewrite (schemaBySubjectVersion_route Rabin Decode MarshalSchema
                 MarshalSubjectSchema ErrorText fs r t0 t1 subject tok Hm Hs).
      destruct (Atoi tok) as [version|err] eqn:Ha.
      * destruct (snd (findBySubjectVersion (init (fr fs)) subject version)).
        -- eexists _, _. split; [done|]. do 3 right. left. eauto 8.
        -- eexists _, _. split; [done|]. do 3 right. left.
           split_and!; try done. right; left. by eexists.
      * eexists _, _. split; [done|]. right; left. split_and!; try done.
        -- by eexists.
        -- exists tok, err. split; [|done]. rewrite Hs. set_solver.
Qed.



(** X10. Only a registration changes the records. Whatever the request,
    the handler replies, and the records of the store are afterwards what
    they were, unless the request is a POST under ["/subjects/"] answered
    with status 200 and an id. No GET, no request of a wrong method or
    path shape and no request answered with an error adds, removes or
    changes a record. *)
Theorem only_post_changes_records fs p r :
  ∃ fs' w, serve' fs p r = Reply fs' w ∧
    (records (init (fr fs')) = records (init (fr fs))
     ∨ (p = Subjects ∧ Method r = "POST" ∧
        ∃ id, w = mkResponse 200 (JSONBody (JObject [("id", JNumber id)])))).
Proof.
  destruct (serve_outcome fs p r) as (fs' & w & Hs & Hcase).
  exists fs', w. split; [done|].
  destruct Hcase as [(-> & _)|[(-> & _)|[(-> & _)|[(-> & _)|H]]]]; try by left.
  - left. simpl. by rewrite init_init.
  - right. destruct H as (-> & Hm & subject & schema & _ & _ & _ & ->). eauto.
Qed.



(** A registration on a server that answered any sequence of requests. *)
Lemma post_reply reqs fs r t0 t1 subject schema :
  serveAll' newFakeServer reqs = Some fs →
  Method r = "POST" →
  Split (EscapedPath r) "/" = [t0; t1; subject; "versions"] →
  Decode (Body r) = inl schema →
  fitsInt (fst (CreateSchema Rabin (fr fs) subject schema)) →
  serve' fs Subjects r
  = Reply (mkFakeServer (fst (CreateSchema Rabin (fr fs) subject schema)))
      (mkResponse 200
         (JSONBody (JObject
            [("id", JNumber (ID (snd (CreateSchema Rabin (fr fs) subject schema))))]))) ∧
  Inv Rabin (fr fs) ∧
  Inv Rabin (fst (CreateSchema Rabin (fr fs) subject schema)) ∧
  initOnce (fst (CreateSchema Rabin (fr fs) subject schema)) = true ∧
  snd (CreateSchema Rabin (fr fs) subject schema)
    ∈ records (fst (CreateSchema Rabin (fr fs) subject schema)) ∧
  Rabin (text (snd (CreateSchema Rabin (fr fs) subject schema)))
    = Rabin (Schema_Schema schema).
Proof.
  intros Hserve Hm Hs Hd Hfit.
  destruct (serveAll_run Rabin Decode MarshalSchema MarshalSubjectSchema ErrorText
              _ _ _ Hserve) as [cs Hcs]. simpl in Hcs.
  assert (Hwf : initOnce (fr fs) = false → records (fr fs) = [])
    by (rewrite Hcs; by apply (run_wf Rabin fakeRegistry_zero cs)).
  pose proof (exec_length Rabin (fr fs) (CallCreateSchema subject schema) Hwf)
    as [_ Hl]. simpl in Hl.
  simpl. rewrite (createSchema_route Rabin Decode MarshalSchema MarshalSubjectSchema
                    ErrorText fs r t0 t1 subject Hm Hs), Hd.
  destruct (CreateSchema Rabin (fr fs) subject schema) as [fr1 ss] eqn:HC.
  simpl in *.
  assert (HI : Inv Rabin (fr fs)).
  { rewrite Hcs. apply reached_Inv. rewrite <- Hcs. by eapply fitsInt_le. }
  destruct (CreateSchema_step Rabin _ _ _ _ _ HI HC Hfit)
    as (HI1 & Hi1 & _ & _ & _ & Hcase).
  split_and!; try done.
  - destruct Hcase as [(Hr & Hin & _)|(Hr & _)]; rewrite Hr; [done|].
    apply elem_of_app. right. by apply list_elem_of_singleton.
  - destruct Hcase as [(_ & _ & Hfp)|(_ & Hss & _)]; [done|].
    unfold text. by rewrite Hss.
Qed.

(** X13. Posting a schema twice. On a server that answered any sequence
    of requests, a POST of a schema under a subject is answered with
    status 200 and an id of at least 1; a second POST under the same
    subject of a schema with the same text gets the same answer and
    leaves the server as the first left it. *)
Theorem post_is_idempotent reqs fs r r' t0 t1 t0' t1' subject schema schema' :
  serveAll' newFakeServer reqs = Some fs →
  Method r = "POST" →
  Split (EscapedPath r) "/" = [t0; t1; subject; "versions"] →
  Decode (Body r) = inl schema →
  Method r' = "POST" →
  Split (EscapedPath r') "/" = [t0'; t1'; subject; "versions"] →
  Decode (Body r') = inl schema' →
  Schema_Schema schema' = Schema_Schema schema →
  fitsInt (fst (CreateSchema Rabin (fr fs) subject schema)) →
  ∃ fs1 id,
    1 ≤ id ∧
    serve' fs Subjects r
      = Reply fs1 (mkResponse 200 (JSONBody (JObject [("id", JNumber id)]))) ∧
    serve' fs1 Subjects r'
      = Reply fs1 (mkResponse 200 (JSONBody (JObject [("id", JNumber id)]))).
Proof.
  intros Hserve Hm Hs Hd Hm' Hs' Hd' Htext Hfit.
  destruct (post_reply reqs fs r t0 t1 subject schema Hserve Hm Hs Hd Hfit)
    as (Hreply & HI & HI1 & Hi1 & Hin & _).
  destruct (CreateSchema Rabin (fr fs) subject schema) as [fr1 ss] eqn:HC.
  simpl in *.
  exists (mkFakeServer fr1), (ID ss). split_and!.
  - pose proof (Inv_record_id Rabin _ _ HI1 Hin). lia.
  - done.
  - rewrite (createSchema_route Rabin Decode MarshalSchema MarshalSubjectSchema
               ErrorText _ r' t0' t1' subject Hm' Hs'), Hd'. simpl.
    by rewrite (CreateSchema_again Rabin _ _ _ _ _ _ HI HC Hfit Htext).
Qed.

(** X14. A schema can be fetched by the id its registration returned. On
    a server that answered any sequence of requests, after a POST answered
    with an id, a GET of that id under ["/schemas/ids/"] finds a schema
    whose text has the fingerprint of the text posted, and answers with
    its encoding, status 200; it leaves the server as it is. *)
Theorem post_then_get_by_id reqs fs r t0 t1 subject schema g u0 u1 u2 tok :
  serveAll' newFakeServer reqs = Some fs →
  Method r = "POST" →
  Split (EscapedPath r) "/" = [t0; t1; subject; "versions"] →
  Decode (Body r) = inl schema →
  fitsInt (fst (CreateSchema Rabin (fr fs) subject schema)) →
  Method g = "GET" →
  Split (EscapedPath g) "/" = [u0; u1; u2; tok] →
  Atoi tok = inl (ID (snd (CreateSchema Rabin (fr fs) subject schema))) →
  ∃ fs1 s,
    serve' fs Subjects r
      = Reply fs1
          (mkResponse 200
             (JSONBody (JObject
                [("id", JNumber (ID (snd (CreateSchema Rabin (fr fs) subject schema))))]))) ∧
    serve' fs1 SchemasIDs g = Reply fs1 (toJSON (AnySchema s)) ∧
    Rabin (Schema_Schema s) = Rabin (Schema_Schema schema) ∧
    (∀ j, MarshalSchema s = inl j →
          serve' fs1 SchemasIDs g = Reply fs1 (mkResponse 200 (JSONBody j))).
Proof.
  intros Hserve Hm Hs Hd Hfit Hmg Hsg Ha.
  destruct (post_reply reqs fs r t0 t1 subject schema Hserve Hm Hs Hd Hfit)
    as (Hreply & HI & HI1 & Hi1 & Hin & Hfp).
  destruct (CreateSchema Rabin (fr fs) subject schema) as [fr1 ss] eqn:HC.
  simpl in *.
  destruct (findOneByID_some fr1 (ID ss)) as (k & ss' & Hk & Hid & _ & Hfind);
    [by exists ss|].
  assert (Hget : idsRoute (mkFakeServer fr1) g
                 = Reply (mkFakeServer fr1) (toJSON (AnySchema (SubjectSchema_Schema ss')))).
  { rewrite (schemaByID_route MarshalSchema MarshalSubjectSchema ErrorText
               _ g u0 u1 u2 tok Hmg Hsg), Ha. simpl.
    by rewrite (init_done _ Hi1), Hfind. }
  exists (mkFakeServer fr1), (SubjectSchema_Schema ss'). split_and!; try done.
  - apply list_elem_of_lookup_2 in Hk.
    pose proof (inv_records _ _ HI1 _ Hk) as Hrk. rewrite Hid in Hrk.
    pose proof (inv_records _ _ HI1 _ Hin) as Hrr.
    rewrite <- Hfp. by eapply (inv_cache_inj _ _ HI1).
  - intros j Hj. rewrite Hget. unfold fakeServer_json. simpl. by rewrite Hj.
Qed.

(** X15. The answer to a lookup that finds its record. A GET by subject
    and version answers with the encoding of the first record of that
    subject and version, a GET by id with the encoding of the schema of
    the first record with that id; the status is 200 when the value
    encodes, and the answer is the error 500 with code 50001 when it does
    not. The store is only initialised. *)
Theorem lookup_found_response fs :
  (∀ r t0 t1 subject tok version i ss,
     Method r = "GET" →
     Split (EscapedPath r) "/" = [t0; t1; subject; "versions"; tok] →
     Atoi tok = inl version →
     records (init (fr fs)) !! i = Some ss →
     Subject ss = subject → Version ss = version →
     (∀ j ss', records (init (fr fs)) !! j = Some ss' → (j < i)%nat →
               ¬ (Subject ss' = subject ∧ Version ss' = version)) →
     serve' fs Subjects r
     = Reply (mkFakeServer (init (fr fs)))
         match MarshalSubjectSchema ss with
         | inl j => mkResponse 200 (JSONBody j)
         | inr err => mkResponse 500 (errorBody 50001 (ErrorText err))
         end) ∧
  (∀ r t0 t1 t2 tok id i ss,
     Method r = "GET" →
     Split (EscapedPath r) "/" = [t0; t1; t2; tok] →
     Atoi tok = inl id →
     records (init (fr fs)) !! i = Some ss →
     ID ss = id →
     (∀ j ss', records (init (fr fs)) !! j = Some ss' → (j < i)%nat → ID ss' ≠ id) →
     serve' fs SchemasIDs r
     = Reply (mkFakeServer (init (fr fs)))
         match MarshalSchema (SubjectSchema_Schema ss) with
         | inl j => mkResponse 200 (JSONBody j)
         | inr err => mkResponse 500 (errorBody 50001 (ErrorText err))
         end).
Proof.
  split.
  - intros r t0 t1 subject tok version i ss Hm Hs Ha Hi Hsub Hv Hfirst. simpl.
    rewrite (schemaBySubjectVersion_route Rabin Decode MarshalSchema
               MarshalSubjectSchema ErrorText fs r t0 t1 subject tok Hm Hs), Ha.
    assert (Hf : findBySubjectVersion (init (fr fs)) subject version = (ss, true)).
    { unfold findBySubjectVersion. rewrite findBySubjectVersion_loop_find.
      fold (records (init (fr fs))).
      assert (Hfind : list_find (λ ss, Subject ss = subject ∧ Version ss = version)
                        (records (init (fr fs))) = Some (i, ss))
        by (apply list_find_Some; eauto).
      by rewrite Hfind. }
    rewrite Hf. simpl. unfold fakeServer_json. simpl.
    by destruct (MarshalSubjectSchema ss).
  - intros r t0 t1 t2 tok id i ss Hm Hs Ha Hi Hid Hfirst. simpl.
    rewrite (schemaByID_route MarshalSchema MarshalSubjectSchema ErrorText
               fs r t0 t1 t2 tok Hm Hs), Ha.
    rewrite (findOneByID_found _ _ _ _ Hi Hid Hfirst). simpl.
    unfold fakeServer_json. simpl.
    by destruct (MarshalSchema (SubjectSchema_Schema ss)).
Qed.

End ServerExtras.

(** * The registry of each test *)

Section TestServerFacts.

Variable NewServerURL : nat → string.

Local Abbreviation setup := (testSchemaRegistryURL NewServerURL).

Lemma Close_lookup w q p :
  heap (Close w q) !! p
  = (λ srv, mkHttptestServer (URL srv) (Handler srv)
              (if decide (q = p) then true else closed srv)) <$> heap w !! p.
Proof.
  unfold Close. simpl. destruct (decide (q = p)) as [->|Hne].
  - rewrite list_lookup_alter_eq. by destruct (heap w !! p).
  - rewrite list_lookup_alter_ne by done. by destruct (heap w !! p) as [[]|].
Qed.

Lemma runCleanups_map w ps :
  fakeServerByTest (foldl Close w ps) = fakeServerByTest w.
Proof. revert w. induction ps as [|q ps IH]; intros w; simpl; [done|]. by rewrite IH. Qed.

Lemma runCleanups_lookup w ps p :
  heap (foldl Close w ps) !! p
  = (λ srv, mkHttptestServer (URL srv) (Handler srv)
              (if decide (p ∈ ps) then true else closed srv)) <$> heap w !! p.
Proof.
  revert w. induction ps as [|q ps IH]; intros w; simpl.
  - destruct (decide (p ∈ [])) as [Hin|_]; [by apply elem_of_nil in Hin|].
    by destruct (heap w !! p) as [[]|].
  - rewrite IH, Close_lookup. destruct (heap w !! p) as [srv|]; [|done]. simpl.
    f_equal. f_equal.
    assert (Hcons : p ∈ q :: ps ↔ q = p ∨ p ∈ ps)
      by (rewrite elem_of_cons; split; intros [?|?]; auto).
    destruct (decide (p ∈ ps)) as [Hin|Hin], (decide (q = p)) as [Hq|Hq],
      (decide (p ∈ q :: ps)) as [Hc|Hc]; try done;
      try (destruct Hc; apply Hcons; by auto).
    apply Hcons in Hc as [?|?]; done.
Qed.

Lemma runCleanups_length w ps :
  length (heap (foldl Close w ps)) = length (heap w).
Proof.
  revert w. induction ps as [|q ps IH]; intros w; simpl; [done|].
  rewrite IH. unfold Close. simpl. by rewrite length_alter.
Qed.

(** What a call gives back: the pointer the map holds for the test
    afterwards, and the URL of the server behind it. *)
Lemma setup_result w t w1 t1 url :
  setup w t = Some (w1, t1, url) →
  ∃ p srv, fakeServerByTest w1 !! Name t = Some p ∧ heap w1 !! p = Some srv ∧
           URL srv = url ∧
           (fakeServerByTest w !! Name t = None →
            p = length (heap w) ∧ cleanups t1 = p :: cleanups t ∧
            heap w1 = heap w ++ [srv] ∧ closed srv = false ∧
            Handler srv = newFakeServer).
Proof.
  unfold testSchemaRegistryURL.
  destruct (fakeServerByTest w !! Name t) as [p|] eqn:Hm.
  - destruct (heap w !! p) as [srv|] eqn:Hh; [|done]. intros [= <- <- <-].
    exists p, srv. by split_and!.
  - intros [= <- <- <-]. eexists _, _. simpl. split_and!.
    + by rewrite lookup_insert_eq.
    + by rewrite lookup_app_r, Nat.sub_diag.
    + done.
    + done.
Qed.

(** X16. One server per test name. A second call of
    [testSchemaRegistryURL] for a test of the same name returns the URL
    the first call returned; it starts no server, changes nothing in the
    package and registers no cleanup. *)
Theorem test_server_is_memoised w t t' w1 t1 url :
  testSchemaRegistryURL NewServerURL w t = Some (w1, t1, url) →
  Name t' = Name t →
  testSchemaRegistryURL NewServerURL w1 t' = Some (w1, t', url).
Proof.
  intros Hs Hn. destruct (setup_result _ _ _ _ _ Hs) as (p & srv & Hm & Hh & Hu & _).
  unfold testSchemaRegistryURL. by rewrite Hn, Hm, Hh, Hu.
Qed.

(** X17. The server of a finished test stays in the map. When a test asks
    for its registry for the first time, a server is started and its
    cleanup registered; once the cleanups of the test have run, the map
    still holds that server, now closed, and a later test of the same name
    is handed the URL of the closed server: no new server is started. *)
Theorem finished_test_server_is_reused w t t' w1 t1 url :
  fakeServerByTest w !! Name t = None →
  testSchemaRegistryURL NewServerURL w t = Some (w1, t1, url) →
  Name t' = Name t →
  testSchemaRegistryURL NewServerURL (runCleanups w1 t1) t'
  = Some (runCleanups w1 t1, t', url) ∧
  ∃ p srv, fakeServerByTest (runCleanups w1 t1) !! Name t = Some p ∧
           heap (runCleanups w1 t1) !! p = Some srv ∧
           URL srv = url ∧ closed srv = true ∧
           length (heap (runCleanups w1 t1)) = length (heap w1).
Proof.
  intros Hnew Hs Hn.
  destruct (setup_result _ _ _ _ _ Hs) as (p & srv & Hm & Hh & Hu & Hfirst).
  destruct (Hfirst Hnew) as (Hp & Hc & _).
  assert (Hh2 : heap (runCleanups w1 t1) !! p
                = Some (mkHttptestServer (URL srv) (Handler srv) true)).
  { unfold runCleanups. rewrite runCleanups_lookup, Hh. simpl.
    destruct (decide (p ∈ cleanups t1)) as [_|Hnot]; [done|].
    destruct Hnot. rewrite Hc. by constructor. }
  assert (Hm2 : fakeServerByTest (runCleanups w1 t1) !! Name t = Some p)
    by (unfold runCleanups; by rewrite runCleanups_map).
  split.
  - unfold testSchemaRegistryURL. rewrite Hn, Hm2, Hh2. simpl. by rewrite Hu.
  - exists p, (mkHttptestServer (URL srv) (Handler srv) true). split_and!; try done.
    apply runCleanups_length.
Qed.

(** The pointers of the map are valid and pairwise distinct, and stay so. *)
Lemma runTests_pointers steps w :
  (∀ name p, fakeServerByTest w !! name = Some p → (p < length (heap w))%nat) →
  (∀ a b p, fakeServerByTest w !! a = Some p → fakeServerByTest w !! b = Some p →
            a = b) →
  ∃ w', runTests NewServerURL w steps = Some w' ∧
        (∀ name p, fakeServerByTest w' !! name = Some p → (p < length (heap w'))%nat) ∧
        (∀ a b p, fakeServerByTest w' !! a = Some p → fakeServerByTest w' !! b = Some p →
                  a = b).
Proof.
  revert w. induction steps as [|[t|q] steps IH]; intros w Hvalid Hinj; simpl.
  - eauto.
  - unfold testSchemaRegistryURL.
    destruct (fakeServerByTest w !! Name t) as [p|] eqn:Hm.
    + destruct (heap w !! p) as [srv|] eqn:Hh; [by apply IH|].
      apply lookup_ge_None in Hh. specialize (Hvalid _ _ Hm). lia.
    + apply IH; simpl.
      * intros name p Hl. rewrite length_app. simpl.
        destruct (decide (Name t = name)) as [<-|Hne].
        -- rewrite lookup_insert_eq in Hl. injection Hl as <-. lia.
        -- rewrite lookup_insert_ne in Hl by done. specialize (Hvalid _ _ Hl). lia.
      * intros a b p Ha Hb.
        destruct (decide (Name t = a)) as [<-|Hna];
          destruct (decide (Name t = b)) as [<-|Hnb]; [done|..].
        -- rewrite lookup_insert_eq in Ha. injection Ha as <-.
           rewrite lookup_insert_ne in Hb by done. specialize (Hvalid _ _ Hb). lia.
        -- rewrite lookup_insert_eq in Hb. injection Hb as <-.
           rewrite lookup_insert_ne in Ha by done. specialize (Hvalid _ _ Ha). lia.
        -- rewrite lookup_insert_ne in Ha, Hb by done. by eapply Hinj.
  - apply IH; unfold Close; simpl.
    + intros name p Hl. rewrite length_alter. by eapply Hvalid.
    + done.
Qed.

(** X18. Tests do not share a server. Whatever tests ask for their
    registry and whatever servers are closed in between, starting from the
    empty package, no call dereferences a nil server, every name in the
    map points to a server on the heap, and two different names never
    point to the same server. *)
Theorem tests_do_not_share_servers steps :
  ∃ w, runTests NewServerURL testWorld_zero steps = Some w ∧
       (∀ name p, fakeServerByTest w !! name = Some p → is_Some (heap w !! p)) ∧
       (∀ a b pa pb, fakeServerByTest w !! a = Some pa →
                     fakeServerByTest w !! b = Some pb → a ≠ b → pa ≠ pb).
Proof.
  destruct (runTests_pointers steps testWorld_zero) as (w & Hrun & Hvalid & Hinj).
  - intros name p H. simpl in H. by rewrite lookup_empty in H.
  - intros a b p H. simpl in H. by rewrite lookup_empty in H.
  - exists w. split_and!; [done| |].
    + intros name p Hl. apply lookup_lt_is_Some. by eapply Hvalid.
    + intros a b pa pb Ha Hb Hne ->. by apply Hne, (Hinj a b pb).
Qed.

End TestServerFacts.

(** * The further properties on concrete registries *)

Lemma lookup_by_version_range_witness :
  fitsInt Sample.store ∧
  (∀ k ss,
     recordsOf "foo" (records Sample.store) !! k = Some ss →
     snd (SchemaBySubjectVersion Sample.store "foo" (Z.of_nat k + 1)) = (ss, true)) ∧
  (∀ version,
     ¬ (1 ≤ version ≤ Z.of_nat (length (recordsOf "foo" (records Sample.store)))) →
     snd (SchemaBySubjectVersion Sample.store "foo" version)
     = (SubjectSchema_zero, false)).
Proof.
  assert (H1 : fitsInt Sample.store) by (unfold fitsInt; vm_compute; discriminate).
  split; [exact H1|].
  exact (lookup_by_version_range Sample.Rabin Sample.calls "foo" H1).
Defined.

Lemma one_record_per_subject_key_witness :
  fitsInt Sample.store ∧
  records Sample.store !! 0%nat = Some (mkSubjectSchema "foo" 1 1 Sample.stringSchema) ∧
  Subject (mkSubjectSchema "foo" 1 1 Sample.stringSchema)
    = Subject (mkSubjectSchema "foo" 1 1 Sample.stringSchema) ∧
  (ID (mkSubjectSchema "foo" 1 1 Sample.stringSchema)
     = ID (mkSubjectSchema "foo" 1 1 Sample.stringSchema)
   ∨ Version (mkSubjectSchema "foo" 1 1 Sample.stringSchema)
     = Version (mkSubjectSchema "foo" 1 1 Sample.stringSchema)) ∧
  0%nat = 0%nat.
Proof.
  assert (H1 : fitsInt Sample.store) by (unfold fitsInt; vm_compute; discriminate).
  assert (H2 : records Sample.store !! 0%nat
               = Some (mkSubjectSchema "foo" 1 1 Sample.stringSchema))
    by (vm_compute; reflexivity).
  assert (H3 : Subject (mkSubjectSchema "foo" 1 1 Sample.stringSchema)
               = Subject (mkSubjectSchema "foo" 1 1 Sample.stringSchema)) by reflexivity.
  assert (H4 : ID (mkSubjectSchema "foo" 1 1 Sample.stringSchema)
               = ID (mkSubjectSchema "foo" 1 1 Sample.stringSchema)
             ∨ Version (mkSubjectSchema "foo" 1 1 Sample.stringSchema)
               = Version (mkSubjectSchema "foo" 1 1 Sample.stringSchema))
    by (left; reflexivity).
  split; [exact H1|]. split; [exact H2|]. split; [exact H3|]. split; [exact H4|].
  exact (one_record_per_subject_key Sample.Rabin Sample.calls 0 0 _ _ H1 H2 H2 H3 H4).
Defined.

Lemma reregistration_same_record_witness :
  fitsInt Sample.laterStore ∧
  (Sample.calls ++ Sample.laterCalls) !! 0%nat
    = Some (CallCreateSchema "foo" Sample.stringSchema) ∧
  (Sample.calls ++ Sample.laterCalls) !! 4%nat
    = Some (CallCreateSchema "foo" Sample.stringSchema) ∧
  snd (run Sample.Rabin fakeRegistry_zero (Sample.calls ++ Sample.laterCalls)) !! 4%nat
    = Some (Created (mkSubjectSchema "foo" 1 1 Sample.stringSchema)) ∧
  mkSubjectSchema "foo" 1 1 Sample.stringSchema
  = mkSubjectSchema "foo" 1 1 Sample.stringSchema.
Proof.
  assert (H1 : fitsInt Sample.laterStore) by (unfold fitsInt; vm_compute; discriminate).
  assert (H2 : (Sample.calls ++ Sample.laterCalls) !! 0%nat
               = Some (CallCreateSchema "foo" Sample.stringSchema)) by reflexivity.
  assert (H3 : (Sample.calls ++ Sample.laterCalls) !! 4%nat
               = Some (CallCreateSchema "foo" Sample.stringSchema)) by reflexivity.
  assert (H4 : snd (run Sample.Rabin fakeRegistry_zero (Sample.calls ++ Sample.laterCalls))
                 !! 0%nat
               = Some (Created (mkSubjectSchema "foo" 1 1 Sample.stringSchema)))
    by (vm_compute; reflexivity).
  assert (H5 : snd (run Sample.Rabin fakeRegistry_zero (Sample.calls ++ Sample.laterCalls))
                 !! 4%nat
               = Some (Created (mkSubjectSchema "foo" 1 1 Sample.stringSchema)))
    by (vm_compute; reflexivity).
  split; [exact H1|]. split; [exact H2|]. split; [exact H3|]. split; [exact H5|].
  exact (reregistration_same_record Sample.Rabin (Sample.calls ++ Sample.laterCalls) 0 4
           "foo" Sample.stringSchema Sample.stringSchema _ _
           H1 H2 H3 eq_refl H4 H5).
Defined.

Lemma ids_are_consecutive_witness :
  fitsInt Sample.store ∧
  (∀ k, 1 ≤ k ≤ idSequence Sample.store ↔
        ∃ ss, ss ∈ records Sample.store ∧ ID ss = k) ∧
  idSequence Sample.store = Z.of_nat (size (fingerprintIDCache Sample.store)).
Proof.
  assert (H1 : fitsInt Sample.store) by (unfold fitsInt; vm_compute; discriminate).
  split; [exact H1|].
  exact (ids_are_consecutive Sample.Rabin Sample.calls H1).
Defined.

Lemma cache_matches_records_witness :
  fitsInt Sample.store ∧
  (fingerprintIDCache Sample.store !! Sample.Rabin (Schema_Schema Sample.intSchema)
     = Some 2 ↔
   ∃ ss, ss ∈ records Sample.store ∧
         Sample.Rabin (text ss) = Sample.Rabin (Schema_Schema Sample.intSchema) ∧
         ID ss = 2).
Proof.
  assert (H1 : fitsInt Sample.store) by (unfold fitsInt; vm_compute; discriminate).
  split; [exact H1|].
  exact (cache_matches_records Sample.Rabin Sample.calls
           (Sample.Rabin (Schema_Schema Sample.intSchema)) 2 H1).
Defined.

Lemma register_outcomes_witness :
  fitsInt (fst (CreateSchema Sample.Rabin Sample.store "bar" Sample.intSchema)) ∧
  records (fst (CreateSchema Sample.Rabin Sample.store "bar" Sample.intSchema))
  = records Sample.store
    ++ [snd (CreateSchema Sample.Rabin Sample.store "bar" Sample.intSchema)] ∧
  idSequence (fst (CreateSchema Sample.Rabin Sample.store "bar" Sample.intSchema))
  = idSequence Sample.store ∧
  snd (CreateSchema Sample.Rabin Sample.store "bar" Sample.intSchema)
  = mkSubjectSchema "bar" 2 2 Sample.intSchema.
Proof.
  assert (H1 : fitsInt (fst (CreateSchema Sample.Rabin Sample.store "bar"
                               Sample.intSchema)))
    by (unfold fitsInt; vm_compute; discriminate).
  split; [exact H1|].
  destruct (register_outcomes Sample.Rabin Sample.calls "bar" Sample.intSchema H1)
    as [(Hinit & _)|[(Hrec & _ & Hseq & _ & _ & Hss)|(_ & _ & _ & Hnone & _)]].
  - vm_compute in Hinit. discriminate Hinit.
  - split; [exact Hrec|]. split; [exact Hseq|].
    etransitivity; [exact Hss|vm_compute; reflexivity].
  - vm_compute in Hnone. discriminate Hnone.
Defined.

Lemma store_is_append_only_witness :
  fitsInt Sample.laterStore ∧
  records Sample.store `prefix_of` records Sample.laterStore ∧
  (length (records Sample.laterStore)
   ≤ length (records Sample.store) + length (registered Sample.laterCalls))%nat ∧
  (Forall (λ c, isLookup c = true) Sample.laterCalls →
   records Sample.laterStore = records Sample.store).
Proof.
  assert (H1 : fitsInt Sample.laterStore) by (unfold fitsInt; vm_compute; discriminate).
  split; [exact H1|].
  exact (store_is_append_only Sample.Rabin Sample.calls Sample.laterCalls H1).
Defined.

Lemma all_versions_one_per_subject_witness :
  fitsInt Sample.store ∧
  NoDup (Subject <$> elems (snd (SubjectVersionsByID Sample.store 1))) ∧
  ∀ ss, ss ∈ elems (snd (SubjectVersionsByID Sample.store 1)) →
        ID ss = 1 ∧ ss ∈ records Sample.store.
Proof.
  assert (H1 : fitsInt Sample.store) by (unfold fitsInt; vm_compute; discriminate).
  split; [exact H1|].
  exact (all_versions_one_per_subject Sample.Rabin Sample.calls 1 H1).
Defined.


Lemma post_is_idempotent_witness :
  serveAll Sample.Rabin Sample.Decode Sample.MarshalSchema Sample.MarshalSubjectSchema
    Sample.ErrorText newFakeServer [(Subjects, Sample.postFoo)] = Some Sample.server ∧
  Split (EscapedPath Sample.postBar) "/" = [EmptyString; "subjects"; "bar"; "versions"] ∧
  Sample.Decode (Body Sample.postBar) = inl Sample.intSchema ∧
  fitsInt (fst (CreateSchema Sample.Rabin (fr Sample.server) "bar" Sample.intSchema)) ∧
  ∃ fs1 id,
    1 ≤ id ∧
    serve Sample.Rabin Sample.Decode Sample.MarshalSchema Sample.MarshalSubjectSchema
      Sample.ErrorText Sample.server Subjects Sample.postBar
    = Reply fs1 (mkResponse 200 (JSONBody (JObject [("id", JNumber id)]))) ∧
    serve Sample.Rabin Sample.Decode Sample.MarshalSchema Sample.MarshalSubjectSchema
      Sample.ErrorText fs1 Subjects Sample.postBar
    = Reply fs1 (mkResponse 200 (JSONBody (JObject [("id", JNumber id)]))).
Proof.
  assert (H1 : serveAll Sample.Rabin Sample.Decode Sample.MarshalSchema
                 Sample.MarshalSubjectSchema Sample.ErrorText newFakeServer
                 [(Subjects, Sample.postFoo)] = Some Sample.server)
    by (vm_compute; reflexivity).
  assert (H2 : Method Sample.postBar = "POST") by reflexivity.
  assert (H3 : Split (EscapedPath Sample.postBar) "/"
               = [EmptyString; "subjects"; "bar"; "versions"]) by reflexivity.
  assert (H4 : Sample.Decode (Body Sample.postBar) = inl Sample.intSchema)
    by reflexivity.
  assert (H5 : Schema_Schema Sample.intSchema = Schema_Schema Sample.intSchema)
    by reflexivity.
  assert (H6 : fitsInt (fst (CreateSchema Sample.Rabin (fr Sample.server) "bar"
                               Sample.intSchema)))
    by (unfold fitsInt; vm_compute; discriminate).
  split; [exact H1|]. split; [exact H3|]. split; [exact H4|]. split; [exact H6|].
  exact (post_is_idempotent Sample.Rabin Sample.Decode Sample.MarshalSchema
           Sample.MarshalSubjectSchema Sample.ErrorText [(Subjects, Sample.postFoo)]
           Sample.server Sample.postBar Sample.postBar
           EmptyString "subjects" EmptyString "subjects" "bar"
           Sample.intSchema Sample.intSchema H1 H2 H3 H4 H2 H3 H4 H5 H6).
Defined.

Lemma post_then_get_by_id_witness :
  serveAll Sample.Rabin Sample.Decode Sample.MarshalSchema Sample.MarshalSubjectSchema
    Sample.ErrorText newFakeServer [(Subjects, Sample.postFoo)] = Some Sample.server ∧
  Sample.Decode (Body Sample.postBar) = inl Sample.intSchema ∧
  fitsInt (fst (CreateSchema Sample.Rabin (fr Sample.server) "bar" Sample.intSchema)) ∧
  Split (EscapedPath Sample.getID2) "/" = [EmptyString; "schemas"; "ids"; "2"] ∧
  Atoi "2"
  = inl (ID (snd (CreateSchema Sample.Rabin (fr Sample.server) "bar" Sample.intSchema))) ∧
  ∃ fs1 s,
    serve Sample.Rabin Sample.Decode Sample.MarshalSchema Sample.MarshalSubjectSchema
      Sample.ErrorText Sample.server Subjects Sample.postBar
    = Reply fs1
        (mkResponse 200
           (JSONBody (JObject
              [("id", JNumber (ID (snd (CreateSchema Sample.Rabin (fr Sample.server)
                                          "bar" Sample.intSchema))))]))) ∧
    serve Sample.Rabin Sample.Decode Sample.MarshalSchema Sample.MarshalSubjectSchema
      Sample.ErrorText fs1 SchemasIDs Sample.getID2
    = Reply fs1
        (fakeServer_json Sample.MarshalSchema Sample.MarshalSubjectSchema
           Sample.ErrorText (AnySchema s)) ∧
    Sample.Rabin (Schema_Schema s) = Sample.Rabin (Schema_Schema Sample.intSchema) ∧
    (∀ j, Sample.MarshalSchema s = inl j →
          serve Sample.Rabin Sample.Decode Sample.MarshalSchema
            Sample.MarshalSubjectSchema Sample.ErrorText fs1 SchemasIDs Sample.getID2
          = Reply fs1 (mkResponse 200 (JSONBody j))).
Proof.
  assert (H1 : serveAll Sample.Rabin Sample.Decode Sample.MarshalSchema
                 Sample.MarshalSubjectSchema Sample.ErrorText newFakeServer
                 [(Subjects, Sample.postFoo)] = Some Sample.server)
    by (vm_compute; reflexivity).
  assert (H2 : Method Sample.postBar = "POST") by reflexivity.
  assert (H3 : Split (EscapedPath Sample.postBar) "/"
               = [EmptyString; "subjects"; "bar"; "versions"]) by reflexivity.
  assert (H4 : Sample.Decode (Body Sample.postBar) = inl Sample.intSchema)
    by reflexivity.
  assert (H5 : fitsInt (fst (CreateSchema Sample.Rabin (fr Sample.server) "bar"
                               Sample.intSchema)))
    by (unfold fitsInt; vm_compute; discriminate).
  assert (H6 : Method Sample.getID2 = "GET") by reflexivity.
  assert (H7 : Split (EscapedPath Sample.getID2) "/"
               = [EmptyString; "schemas"; "ids"; "2"]) by reflexivity.
  assert (H8 : Atoi "2"
               = inl (ID (snd (CreateSchema Sample.Rabin (fr Sample.server) "bar"
                                 Sample.intSchema))))
    by (vm_compute; reflexivity).
  split; [exact H1|]. split; [exact H4|]. split; [exact H5|]. split; [exact H7|].
  split; [exact H8|].
  exact (post_then_get_by_id Sample.Rabin Sample.Decode Sample.MarshalSchema
           Sample.MarshalSubjectSchema Sample.ErrorText [(Subjects, Sample.postFoo)]
           Sample.server Sample.postBar EmptyString "subjects" "bar" Sample.intSchema
           Sample.getID2 EmptyString "schemas" "ids" "2" H1 H2 H3 H4 H5 H6 H7 H8).
Defined.

Lemma test_server_is_memoised_witness :
  testSchemaRegistryURL Sample.NewServerURL testWorld_zero Sample.testEncode
  = Some (Sample.testEncodeWorld, mkTestingT "TestEncode" [0%nat],
          Sample.NewServerURL 0) ∧
  testSchemaRegistryURL Sample.NewServerURL Sample.testEncodeWorld
    (mkTestingT "TestEncode" [0%nat])
  = Some (Sample.testEncodeWorld, mkTestingT "TestEncode" [0%nat],
          Sample.NewServerURL 0).
Proof.
  assert (H1 : testSchemaRegistryURL Sample.NewServerURL testWorld_zero
                 Sample.testEncode
               = Some (Sample.testEncodeWorld, mkTestingT "TestEncode" [0%nat],
                       Sample.NewServerURL 0))
    by (vm_compute; reflexivity).
  split; [exact H1|].
  exact (test_server_is_memoised Sample.NewServerURL testWorld_zero Sample.testEncode
           (mkTestingT "TestEncode" [0%nat]) _ _ _ H1 eq_refl).
Defined.

Lemma finished_test_server_is_reused_witness :
  fakeServerByTest testWorld_zero !! Name Sample.testEncode = None ∧
  testSchemaRegistryURL Sample.NewServerURL testWorld_zero Sample.testEncode
  = Some (Sample.testEncodeWorld, mkTestingT "TestEncode" [0%nat],
          Sample.NewServerURL 0) ∧
  testSchemaRegistryURL Sample.NewServerURL
    (runCleanups Sample.testEncodeWorld (mkTestingT "TestEncode" [0%nat]))
    Sample.testEncode
  = Some (runCleanups Sample.testEncodeWorld (mkTestingT "TestEncode" [0%nat]),
          Sample.testEncode, Sample.NewServerURL 0) ∧
  ∃ p srv,
    fakeServerByTest (runCleanups Sample.testEncodeWorld (mkTestingT "TestEncode" [0%nat]))
      !! Name Sample.testEncode = Some p ∧
    heap (runCleanups Sample.testEncodeWorld (mkTestingT "TestEncode" [0%nat])) !! p
      = Some srv ∧
    URL srv = Sample.NewServerURL 0 ∧ closed srv = true ∧
    length (heap (runCleanups Sample.testEncodeWorld (mkTestingT "TestEncode" [0%nat])))
    = length (heap Sample.testEncodeWorld).
Proof.
  assert (H1 : fakeServerByTest testWorld_zero !! Name Sample.testEncode = None)
    by (vm_compute; reflexivity).
  assert (H2 : testSchemaRegistryURL Sample.NewServerURL testWorld_zero
                 Sample.testEncode
               = Some (Sample.testEncodeWorld, mkTestingT "TestEncode" [0%nat],
                       Sample.NewServerURL 0))
    by (vm_compute; reflexivity).
  split; [exact H1|]. split; [exact H2|].
  exact (finished_test_server_is_reused Sample.NewServerURL testWorld_zero
           Sample.testEncode Sample.testEncode _ _ _ H1 H2 eq_refl).
Defined.
